(** * Registration form (src/components/Form.tsx): validators and form store

    A shallow embedding of the [Form] component's logic: the per-field
    validators of [validateField], the change handlers, the validity
    effect and [handleSubmit], with the properties of the specification
    stated over them. *)

From Stdlib Require Import ZArith NArith List Bool Ascii String Lia.
From Stdlib Require Import DecimalString.
From stdpp Require Import base option gmap strings.
Import ListNotations.

Local Open Scope Z_scope.

(** ** JavaScript strings

    A JavaScript string is a sequence of UTF-16 code units; [length],
    regular expressions without the [u] flag, [endsWith] and [parseInt] all
    work on code units. *)

Definition jsstring : Type := list N.

(** A code unit written as an ASCII character. *)
Definition ch (a : ascii) : N := N_of_ascii a.

(** A string literal of the source (all of them are ASCII). *)
Definition lit (s : string) : jsstring := List.map ch (list_ascii_of_string s).

(** [s.length]. *)
Definition jslength (s : jsstring) : Z := Z.of_nat (List.length s).

(** [!value] on a string: only the empty string is falsy. *)
Definition isEmpty (s : jsstring) : bool :=
  match s with [] => true | _ :: _ => false end.

Fixpoint jsstring_eqb (s t : jsstring) : bool :=
  match s, t with
  | [], [] => true
  | c :: s', d :: t' => N.eqb c d && jsstring_eqb s' t'
  | _, _ => false
  end.

(** [s.endsWith(suffix)]: the last [suffix.length] code units of [s] are
    [suffix]. *)
Definition endsWith (s suffix : jsstring) : bool :=
  (List.length suffix <=? List.length s)%nat
  && jsstring_eqb (List.skipn (List.length s - List.length suffix) s) suffix.

(** ** Character classes of the regular expressions *)

Definition inRange (lo hi c : N) : bool := (N.leb lo c && N.leb c hi)%N.

(** [\d]: the ten ASCII digits. *)
Definition isDigit (c : N) : bool := inRange 48 57 c.

(** [\D]. *)
Definition isNonDigit (c : N) : bool := negb (isDigit c).

(** [\s], also the [StrWhiteSpaceChar] skipped by [parseInt]: WhiteSpace
    (TAB, VT, FF, ZWNBSP and the space separators) and LineTerminator
    (LF, CR, LS, PS). *)
Definition isWhiteSpace (c : N) : bool :=
  inRange 9 13 c                      (* TAB LF VT FF CR *)
  || N.eqb c 32                       (* SP *)
  || N.eqb c 160                      (* NBSP *)
  || N.eqb c 5760                     (* U+1680 *)
  || inRange 8192 8202 c              (* U+2000 .. U+200A *)
  || N.eqb c 8232 || N.eqb c 8233     (* LS PS *)
  || N.eqb c 8239                     (* U+202F *)
  || N.eqb c 8287                     (* U+205F *)
  || N.eqb c 12288                    (* U+3000 *)
  || N.eqb c 65279.                   (* U+FEFF *)

(** [[^\s@]]. *)
Definition isEmailChar (c : N) : bool :=
  negb (isWhiteSpace c || N.eqb c (ch "@")).

(** [[!@#$%^&*]]. *)
Definition isSpecial (c : N) : bool :=
  existsb (N.eqb c) (lit "!@#$%^&*").

Definition isChar (a : ascii) (c : N) : bool := N.eqb c (ch a).

Definition anyChar (c : N) : bool := true.

(** ** Regular expressions

    The patterns of the source are built from character classes,
    concatenation and [+]; [Void] and [Alt] are there for the derivatives.
    Matching is by Brzozowski derivatives, which decides membership in the
    pattern's language; that is what [RegExp.prototype.test] answers for
    patterns without back-references and look-around. *)

Inductive regex : Type :=
| Void
| Eps
| Class (p : N -> bool)
| Cat (r1 r2 : regex)
| Alt (r1 r2 : regex)
| Star (r : regex).

(** [r+]. *)
Definition Plus (r : regex) : regex := Cat r (Star r).

Fixpoint nullable (r : regex) : bool :=
  match r with
  | Void => false
  | Eps => true
  | Class _ => false
  | Cat r1 r2 => nullable r1 && nullable r2
  | Alt r1 r2 => nullable r1 || nullable r2
  | Star _ => true
  end.

Fixpoint deriv (c : N) (r : regex) : regex :=
  match r with
  | Void => Void
  | Eps => Void
  | Class p => if p c then Eps else Void
  | Cat r1 r2 =>
      if nullable r1
      then Alt (Cat (deriv c r1) r2) (deriv c r2)
      else Cat (deriv c r1) r2
  | Alt r1 r2 => Alt (deriv c r1) (deriv c r2)
  | Star r1 => Cat (deriv c r1) (Star r1)
  end.

Fixpoint fullMatch (r : regex) (s : jsstring) : bool :=
  match s with
  | [] => nullable r
  | c :: s' => fullMatch (deriv c r) s'
  end.

(** A regular expression literal without flags: an optional [^], a body
    and an optional [$].  Without the [m] flag the anchors are the two ends
    of the input, and a side that is not anchored may skip any code
    units. *)
Record RegExp : Type := mkRegExp {
  anchorStart : bool;
  body : regex;
  anchorEnd : bool
}.

Definition skipUnless (anchored : bool) : regex :=
  if anchored then Eps else Star (Class anyChar).

(** [re.test(s)]. *)
Definition test (re : RegExp) (s : jsstring) : bool :=
  fullMatch
    (Cat (skipUnless (anchorStart re))
       (Cat (body re) (skipUnless (anchorEnd re))))
    s.

(** [s.replace(/C/g, replacement)] for a pattern that is one character
    class: every code unit in the class is replaced, the others are kept. *)
Definition replaceAllClass (cls : N -> bool) (replacement s : jsstring)
  : jsstring :=
  List.flat_map (fun c => if cls c then replacement else [c]) s.

(** The denotation of a pattern, against which [fullMatch] is proved. *)
Inductive matches : regex -> jsstring -> Prop :=
| MEps : matches Eps []
| MClass p c : p c = true -> matches (Class p) [c]
| MCat r1 r2 s1 s2 :
    matches r1 s1 -> matches r2 s2 -> matches (Cat r1 r2) (s1 ++ s2)
| MAltL r1 r2 s : matches r1 s -> matches (Alt r1 r2) s
| MAltR r1 r2 s : matches r2 s -> matches (Alt r1 r2) s
| MStarNil r : matches (Star r) []
| MStarCons r s1 s2 :
    matches r s1 -> matches (Star r) s2 -> matches (Star r) (s1 ++ s2).

(** ** parseInt

    [parseInt(string)] with no radix: leading white space is skipped, one
    sign is read, a [0x]/[0X] prefix selects radix 16 (radix 10 otherwise),
    and the longest run of digits of that radix is the number; anything
    after it is ignored.  No digit at all gives NaN, here [None].

    The result is kept as the exact integer the digits denote, before it
    is rounded to a Number; above 2^53 the Number can differ from it.  The
    source only compares the result with 18 and 65: rounding to a double is
    monotone and keeps both bounds, so the comparisons have the same
    outcome on the exact integer, and the properties below use [parseInt]
    in such comparisons only. *)

Fixpoint trimStart (s : jsstring) : jsstring :=
  match s with
  | c :: s' => if isWhiteSpace c then trimStart s' else s
  | [] => []
  end.

(** The value of a code unit as a digit: [0-9], [a-z] and [A-Z]. *)
Definition digitValue (c : N) : option Z :=
  if inRange 48 57 c then Some (Z.of_N c - 48)
  else if inRange 97 122 c then Some (Z.of_N c - 97 + 10)
  else if inRange 65 90 c then Some (Z.of_N c - 65 + 10)
  else None.

Definition radixDigit (R : Z) (c : N) : option Z :=
  match digitValue c with
  | Some d => if d <? R then Some d else None
  | None => None
  end.

(** The longest prefix of radix-[R] digits, read left to right; [acc] is
    [None] until the first digit. *)
Fixpoint parseDigits (R : Z) (acc : option Z) (s : jsstring) : option Z :=
  match s with
  | c :: s' =>
      match radixDigit R c with
      | Some d => parseDigits R (Some (default 0 acc * R + d)) s'
      | None => acc
      end
  | [] => acc
  end.

(** An optional sign. *)
Definition readSign (trimmed : jsstring) : Z * jsstring :=
  match trimmed with
  | c :: rest =>
      if isChar "-" c then (-1, rest)
      else if isChar "+" c then (1, rest)
      else (1, trimmed)
  | [] => (1, trimmed)
  end.

(** The radix: 16 after a [0x] or [0X] prefix, which is dropped, and 10
    otherwise. *)
Definition readRadix (unsigned : jsstring) : Z * jsstring :=
  match unsigned with
  | c0 :: c1 :: rest =>
      if isChar "0" c0 && (isChar "x" c1 || isChar "X" c1)
      then (16, rest) else (10, unsigned)
  | _ => (10, unsigned)
  end.

Definition parseInt (string : jsstring) : option Z :=
  let trimmed := trimStart string in
  let '(sign, unsigned) := readSign trimmed in
  let '(R, digits) := readRadix unsigned in
  match parseDigits R None digits with
  | Some mathInt => Some (sign * mathInt)
  | None => None
  end.

(** ** The form's data

    [keyof FormData], in the order of the object literal that initialises
    [formData] (the order [Object.keys] enumerates). *)

Module Key.
Inductive t : Type :=
| fullName | email | password | phone | age | agreeToTerms | country.

(** The property name, as the key of the [errors] object. *)
Definition name (k : t) : string :=
  match k with
  | fullName => "fullName"
  | email => "email"
  | password => "password"
  | phone => "phone"
  | age => "age"
  | agreeToTerms => "agreeToTerms"
  | country => "country"
  end.
End Key.

(** [interface FormData]. *)
Record FormData : Type := mkFormData {
  fullName : jsstring;
  email : jsstring;
  password : jsstring;
  phone : jsstring;
  age : jsstring;
  agreeToTerms : bool;
  country : jsstring
}.

(** [FormData[K]]. *)
Definition FieldType (k : Key.t) : Type :=
  match k with
  | Key.agreeToTerms => bool
  | _ => jsstring
  end.

(** [formData[field]]. *)
Definition getField (k : Key.t) (d : FormData) : FieldType k :=
  match k with
  | Key.fullName => fullName d
  | Key.email => email d
  | Key.password => password d
  | Key.phone => phone d
  | Key.age => age d
  | Key.agreeToTerms => agreeToTerms d
  | Key.country => country d
  end.

(** [{ ...prev, [fieldName]: value }]. *)
Definition setField (k : Key.t) : FieldType k -> FormData -> FormData :=
  match k with
  | Key.fullName => fun v prev =>
      mkFormData v (email prev) (password prev) (phone prev) (age prev)
        (agreeToTerms prev) (country prev)
  | Key.email => fun v prev =>
      mkFormData (fullName prev) v (password prev) (phone prev) (age prev)
        (agreeToTerms prev) (country prev)
  | Key.password => fun v prev =>
      mkFormData (fullName prev) (email prev) v (phone prev) (age prev)
        (agreeToTerms prev) (country prev)
  | Key.phone => fun v prev =>
      mkFormData (fullName prev) (email prev) (password prev) v (age prev)
        (agreeToTerms prev) (country prev)
  | Key.age => fun v prev =>
      mkFormData (fullName prev) (email prev) (password prev) (phone prev) v
        (agreeToTerms prev) (country prev)
  | Key.agreeToTerms => fun v prev =>
      mkFormData (fullName prev) (email prev) (password prev) (phone prev)
        (age prev) v (country prev)
  | Key.country => fun v prev =>
      mkFormData (fullName prev) (email prev) (password prev) (phone prev)
        (age prev) (agreeToTerms prev) v
  end.

(** [Object.keys(formData)]. *)
Definition objectKeys : list Key.t :=
  [Key.fullName; Key.email; Key.password; Key.phone; Key.age;
   Key.agreeToTerms; Key.country].

(** ** The validators of [validateField] *)

Module Msg.
Definition none : jsstring := [].
Definition fullNameRequired := lit "Full name is required".
Definition fullNameShort := lit "Full name must be at least 3 characters".
Definition emailRequired := lit "Email is required".
Definition emailFormat := lit "Please enter a valid email address".
Definition emailSuffix := lit "Email must end with .com or .net".
Definition passwordRequired := lit "Password is required".
Definition passwordShort := lit "Password must be at least 8 characters".
Definition passwordNumber := lit "Password must include at least one number".
Definition passwordSpecial :=
  lit "Password must include at least one special character".
Definition phoneRequired := lit "Phone number is required".
Definition phoneNumbersOnly := lit "Please enter numbers only".
Definition phoneLength := lit "Please enter a valid 10-digit phone number".
Definition ageRequired := lit "Age is required".
Definition ageRange := lit "Age must be between 18 and 65".
Definition countryRequired := lit "Please select a country".
Definition termsRequired := lit "You must agree to the terms".
End Msg.

(** [/^[^\s@]+@[^\s@]+\.[^\s@]+$/]. *)
Definition emailRegex : RegExp :=
  mkRegExp true
    (Cat (Plus (Class isEmailChar))
       (Cat (Class (isChar "@"))
          (Cat (Plus (Class isEmailChar))
             (Cat (Class (isChar "."))
                (Plus (Class isEmailChar))))))
    true.

(** [/\d/]. *)
Definition digitRegex : RegExp := mkRegExp false (Class isDigit) false.

(** [/[!@#$%^&*]/]. *)
Definition specialRegex : RegExp := mkRegExp false (Class isSpecial) false.

(** [/^\d+$/]. *)
Definition digitsOnlyRegex : RegExp :=
  mkRegExp true (Plus (Class isDigit)) true.

Module validateField.

Definition fullName (value : jsstring) : jsstring :=
  if isEmpty value then Msg.fullNameRequired
  else if jslength value <? 3 then Msg.fullNameShort
  else Msg.none.

Definition email (value : jsstring) : jsstring :=
  if isEmpty value then Msg.emailRequired
  else if negb (test emailRegex value) then Msg.emailFormat
  else if negb (endsWith value (lit ".com"))
          && negb (endsWith value (lit ".net"))
  then Msg.emailSuffix
  else Msg.none.

Definition password (value : jsstring) : jsstring :=
  if isEmpty value then Msg.passwordRequired
  else if jslength value <? 8 then Msg.passwordShort
  else if negb (test digitRegex value) then Msg.passwordNumber
  else if negb (test specialRegex value) then Msg.passwordSpecial
  else Msg.none.

Definition phone (value : jsstring) : jsstring :=
  if isEmpty value then Msg.phoneRequired
  else if negb (test digitsOnlyRegex value) then Msg.phoneNumbersOnly
  else if negb (jslength value =? 10) then Msg.phoneLength
  else Msg.none.

Definition age (value : jsstring) : jsstring :=
  if isEmpty value then Msg.ageRequired
  else
    match parseInt value with
    | None => Msg.ageRange                       (* isNaN(age) *)
    | Some age =>
        if (age <? 18) || (age >? 65) then Msg.ageRange else Msg.none
    end.

Definition country (value : jsstring) : jsstring :=
  if isEmpty value then Msg.countryRequired else Msg.none.

Definition agreeToTerms (value : bool) : jsstring :=
  if negb value then Msg.termsRequired else Msg.none.

End validateField.

(** [validateField[fieldName](value)]. *)
Definition validate (k : Key.t) : FieldType k -> jsstring :=
  match k with
  | Key.fullName => validateField.fullName
  | Key.email => validateField.email
  | Key.password => validateField.password
  | Key.phone => validateField.phone
  | Key.age => validateField.age
  | Key.agreeToTerms => validateField.agreeToTerms
  | Key.country => validateField.country
  end.

(** ** The component's state and handlers *)

(** The [useState] cells.  [errors] starts as the empty object and gets a
    property per field the first time the field changes. *)
Record State : Type := mkState {
  selectedCountry : jsstring;
  formData : FormData;
  errors : gmap string jsstring;
  isSubmitted : bool;
  isFormValid : bool
}.

Definition initialFormData : FormData :=
  mkFormData [] [] [] [] [] false [].

Definition initialState : State :=
  mkState [] initialFormData ∅ false false.

(** The body of the [useEffect]: every key of [formData] is validated
    again, then the selected country. *)
Definition computeValid (data : FormData) (selected : jsstring) : bool :=
  let valid :=
    fold_left
      (fun (valid : bool) (field : Key.t) =>
         let error := validate field (getField field data) in
         if isEmpty error then valid else false)
      objectKeys true in
  let countryError := validateField.country selected in
  if isEmpty countryError then valid else false.

(** The effect, run after a render in which [formData] or
    [selectedCountry] changed (and after the first render). *)
Definition validityEffect (st : State) : State :=
  mkState (selectedCountry st) (formData st) (errors st) (isSubmitted st)
    (computeValid (formData st) (selectedCountry st)).

(** [handleCheckboxChange]. *)
Definition handleCheckboxChange (st : State) : State :=
  let newValue := negb (agreeToTerms (formData st)) in
  mkState (selectedCountry st)
    (setField Key.agreeToTerms newValue (formData st))
    (<[Key.name Key.agreeToTerms :=
         if newValue then Msg.none else Msg.termsRequired]> (errors st))
    (isSubmitted st) (isFormValid st).

(** [handleSubmit]: the new state and what is logged, the submission
    data, when the form is valid. *)
Definition handleSubmit (st : State) : State * option FormData :=
  if isFormValid st then
    let submissionData :=
      setField Key.country (selectedCountry st) (formData st) in
    (mkState (selectedCountry st) (formData st) (errors st) true
       (isFormValid st),
     Some submissionData)
  else (st, None).

Section Handlers.

(** JavaScript numbers and [Number.prototype.toString] are the
    language's own; the handlers only convert a number to its string. *)
Variable JSNumber : Type.
Variable numberToString : JSNumber -> jsstring.

(** What an input reports for a string field: [string | number]. *)
Inductive TextValue : Type :=
| OfString (s : jsstring)
| OfNumber (n : JSNumber).

(** The values [handleInputChange] takes for a field: those whose
    processed form has the field's type, as the casts
    [as FormData[T]] assert. *)
Definition RawType (k : Key.t) : Type :=
  match k with
  | Key.agreeToTerms => bool
  | _ => TextValue
  end.

Definition textOf (value : TextValue) : jsstring :=
  match value with
  | OfString s => s
  | OfNumber n => numberToString n
  end.

(** Lines 98-107: a number becomes its string, other values are kept. *)
Definition convert (k : Key.t) : RawType k -> FieldType k :=
  match k with
  | Key.agreeToTerms => fun value => value
  | Key.fullName | Key.email | Key.password | Key.phone | Key.age
  | Key.country => textOf
  end.

(** Lines 109-112: for [phone], every [\D] of the processed string is
    replaced by the empty string. *)
Definition stripPhone (k : Key.t) : FieldType k -> FieldType k :=
  match k with
  | Key.phone => replaceAllClass isNonDigit []
  | Key.fullName | Key.email | Key.password | Key.age | Key.country =>
      fun processedValue => processedValue
  | Key.agreeToTerms => fun processedValue => processedValue
  end.

Definition processValue (k : Key.t) (value : RawType k) : FieldType k :=
  stripPhone k (convert k value).

(** [handleInputChange(value, fieldName)]. *)
Definition handleInputChange (fieldName : Key.t) (value : RawType fieldName)
    (st : State) : State :=
  let processedValue := processValue fieldName value in
  let error := validate fieldName processedValue in
  mkState (selectedCountry st)
    (setField fieldName processedValue (formData st))
    (<[Key.name fieldName := error]> (errors st))
    (isSubmitted st) (isFormValid st).

(** [handleCountryChange], with [value] the selected option's value. *)
Definition handleCountryChange (value : jsstring) (st : State) : State :=
  handleInputChange Key.country (OfString value)
    (mkState value (formData st) (errors st) (isSubmitted st)
       (isFormValid st)).

(** What the rendered form can report. *)
Inductive Event : Type :=
| InputChange (fieldName : Key.t) (value : RawType fieldName)
| CountryChange (value : jsstring)
| CheckboxChange
| Submit.

(** One event handled to completion: the handler, then the effect when
    the handler replaced [formData] or [selectedCountry]. *)
Definition step (ev : Event) (st : State) : State :=
  match ev with
  | InputChange fieldName value =>
      validityEffect (handleInputChange fieldName value st)
  | CountryChange value => validityEffect (handleCountryChange value st)
  | CheckboxChange => validityEffect (handleCheckboxChange st)
  | Submit => fst (handleSubmit st)
  end.

(** The state after the first render. *)
Definition mounted : State := validityEffect initialState.

(** The states the component can be in: the form takes events only
    while it is shown, that is until it is submitted. *)
Inductive reachable : State -> Prop :=
| reachable_mounted : reachable mounted
| reachable_step ev st :
    reachable st -> isSubmitted st = false -> reachable (step ev st).

End Handlers.

Arguments OfString {JSNumber} s.
Arguments OfNumber {JSNumber} n.
Arguments InputChange {JSNumber} fieldName value.
Arguments CountryChange {JSNumber} value.
Arguments CheckboxChange {JSNumber}.
Arguments Submit {JSNumber}.
Arguments handleInputChange {JSNumber} numberToString fieldName value st.
Arguments handleCountryChange {JSNumber} numberToString value st.
Arguments processValue {JSNumber} numberToString k value.
Arguments step {JSNumber} numberToString ev st.
Arguments reachable {JSNumber} numberToString st.

(** An instance for the examples: integers printed as their decimal
    numeral, as [Number.prototype.toString] prints the integers up to
    2^53. *)
Definition integerToString (n : Z) : jsstring :=
  lit (NilZero.string_of_int (Z.to_int n)).

(** ** Vocabulary of the specification

    The specification's wording for the inputs of the email and age
    rules, to compare with what the validators compute. *)

(** A part of an address: one or more code units, none of them white
    space or [@]. *)
Definition emailPart (s : jsstring) : Prop :=
  s <> [] /\ forallb isEmailChar s = true.

(** [local@domain.tld]. *)
Definition localAtDomainTld (v : jsstring) : Prop :=
  exists l d t,
    emailPart l /\ emailPart d /\ emailPart t /\
    v = l ++ [ch "@"] ++ d ++ [ch "."] ++ t.

(** [v] ends in [suffix]. *)
Definition hasSuffix (suffix v : jsstring) : Prop :=
  exists front, v = front ++ suffix.

(** [v] contains a decimal digit. *)
Definition hasDigit (v : jsstring) : Prop :=
  exists c, In c v /\ (48 <= c <= 57)%N.

(** [v] contains one of [! @ # $ % ^ & *]. *)
Definition hasSpecial (v : jsstring) : Prop :=
  exists c, In c v /\ In c (lit "!@#$%^&*").

(** [v] is made of decimal digits only. *)
Definition allDigits (v : jsstring) : Prop :=
  forall c, In c v -> (48 <= c <= 57)%N.

(** The number a run of decimal digits denotes. *)
Definition digitsValue (ds : jsstring) : Z :=
  fold_left (fun acc c => acc * 10 + (Z.of_N c - 48)) ds 0.

(** A string that parses as an integer in the plain sense: an optional
    sign and one or more decimal digits, and nothing else. *)
Definition integerNumeral (v : jsstring) : option Z :=
  let '(sign, ds) :=
    match v with
    | c :: rest =>
        if isChar "-" c then (-1, rest)
        else if isChar "+" c then (1, rest)
        else (1, v)
    | [] => (1, v)
    end in
  if negb (isEmpty ds) && forallb isDigit ds
  then Some (sign * digitsValue ds) else None.

(** The factor of a sign prefix: [-], [+] or none. *)
Definition signValue (sgn : jsstring) : Z :=
  if jsstring_eqb sgn [ch "-"] then -1 else 1.

(** [rest] does not go on with a code unit of the class. *)
Definition stopsBefore (cls : N -> bool) (rest : jsstring) : Prop :=
  match rest with
  | c :: _ => cls c = false
  | [] => True
  end.

(** [v] is white space, a sign prefix [sgn] and the digits [ds], followed
    by a [rest] that no digit starts, and [ds] is not the [0] of a
    [0x]/[0X] prefix. *)
Definition leadingNumeral (v sgn ds : jsstring) : Prop :=
  exists ws rest,
    v = ws ++ sgn ++ ds ++ rest /\
    forallb isWhiteSpace ws = true /\
    (sgn = [] \/ sgn = [ch "-"] \/ sgn = [ch "+"]) /\
    ds <> [] /\ forallb isDigit ds = true /\
    stopsBefore isDigit rest /\
    (ds = [ch "0"] -> stopsBefore (fun c => isChar "x" c || isChar "X" c) rest).

(** Every validator accepts the value its field holds, and the country
    validator accepts the selected country. *)
Definition allFieldsValid (st : State) : Prop :=
  (forall k : Key.t, validate k (getField k (formData st)) = Msg.none) /\
  validateField.country (selectedCountry st) = Msg.none.

(** ** A session

    The fully populated form of the specification, entered field by
    field. *)
Definition sessionEvents : list (@Event Z) :=
  [ InputChange Key.fullName (OfString (lit "John Doe"));
    InputChange Key.email (OfString (lit "john@test.com"));
    InputChange Key.password (OfString (lit "Abcdef1!"));
    InputChange Key.phone (OfString (lit "1234567890"));
    InputChange Key.age (OfNumber 30);
    CountryChange (lit "usa");
    CheckboxChange ].

Definition run (evs : list (@Event Z)) (st : State) : State :=
  fold_left (fun st ev => step integerToString ev st) evs st.

Definition filledState : State := run sessionEvents mounted.

(** ** The rendered form *)

(** [type CountryOption]. *)
Record CountryOption : Type := mkCountryOption {
  label : jsstring;
  value : jsstring
}.

Definition countryOptions : list CountryOption :=
  [ mkCountryOption (lit "United States") (lit "usa");
    mkCountryOption (lit "United Kingdom") (lit "uk");
    mkCountryOption (lit "Canada") (lit "canada");
    mkCountryOption (lit "Australia") (lit "australia");
    mkCountryOption (lit "Germany") (lit "germany") ].

(** The values of the options of the [<select>]: the empty value of the
    placeholder, then one per entry of [countryOptions]. *)
Definition selectValues : list jsstring :=
  [] :: List.map value countryOptions.

Section Rendered.

Context {JSNumber : Type} (numberToString : JSNumber -> jsstring).

(** The events the JSX wires to the handlers: [handleInputChange] on the
    inputs of [fullName], [email], [password], [phone] and [age];
    [handleCountryChange] on the select, with the value of one of its
    options; [handleCheckboxChange] on the checkbox; [handleSubmit] on the
    form. *)
Definition wired (ev : @Event JSNumber) : Prop :=
  match ev with
  | InputChange Key.country _ => False
  | InputChange Key.agreeToTerms _ => False
  | InputChange _ _ => True
  | CountryChange v => In v selectValues
  | CheckboxChange => True
  | Submit => True
  end.

(** The states the rendered form can bring the component to. *)
Inductive rendered : State -> Prop :=
| rendered_mounted : rendered mounted
| rendered_step ev st :
    rendered st -> isSubmitted st = false -> wired ev ->
    rendered (step numberToString ev st).

End Rendered.

Arguments rendered {JSNumber} numberToString st.

(** The value a field starts with. *)
Definition blank (k : Key.t) : FieldType k := getField k initialFormData.

(** The message of a validator's first rule. *)
Definition requiredMessage (k : Key.t) : jsstring :=
  match k with
  | Key.fullName => Msg.fullNameRequired
  | Key.email => Msg.emailRequired
  | Key.password => Msg.passwordRequired
  | Key.phone => Msg.phoneRequired
  | Key.age => Msg.ageRequired
  | Key.agreeToTerms => Msg.termsRequired
  | Key.country => Msg.countryRequired
  end.

(** What the seven rules and the check of the selected country ask of
    the data, in the vocabulary above. *)
Definition acceptable (data : FormData) (selected : jsstring) : Prop :=
  (3 <= List.length (fullName data))%nat /\
  (localAtDomainTld (email data) /\
   (hasSuffix (lit ".com") (email data) \/
    hasSuffix (lit ".net") (email data))) /\
  ((8 <= List.length (password data))%nat /\
   hasDigit (password data) /\ hasSpecial (password data)) /\
  (List.length (phone data) = 10%nat /\ allDigits (phone data)) /\
  (exists n, parseInt (age data) = Some n /\ 18 <= n <= 65) /\
  agreeToTerms data = true /\
  country data <> [] /\
  selected <> [].

(** A hexadecimal digit, its value, and the number a run of them
    denotes. *)
Definition isHexDigit (c : N) : bool :=
  inRange 48 57 c || inRange 97 102 c || inRange 65 70 c.

Definition hexDigitValue (c : N) : Z :=
  if inRange 48 57 c then Z.of_N c - 48
  else if inRange 97 102 c then Z.of_N c - 87
  else Z.of_N c - 55.

Definition hexValue (hs : jsstring) : Z :=
  fold_left (fun acc c => acc * 16 + hexDigitValue c) hs 0.

(** [v] is white space, a sign prefix [sgn], [0x] or [0X], and the
    hexadecimal digits [hs], followed by a rest that no hexadecimal digit
    starts. *)
Definition leadingHexNumeral (v sgn hs : jsstring) : Prop :=
  exists ws x rest,
    v = ws ++ sgn ++ [ch "0"; x] ++ hs ++ rest /\
    forallb isWhiteSpace ws = true /\
    (sgn = [] \/ sgn = [ch "-"] \/ sgn = [ch "+"]) /\
    (x = ch "x" \/ x = ch "X") /\
    hs <> [] /\ forallb isHexDigit hs = true /\
    stopsBefore isHexDigit rest.

(** Every property of [errs] is named after a field and holds the
    field's validator on the field's value in [data]. *)
Definition errorsDescribe (data : FormData) (errs : gmap string jsstring)
  : Prop :=
  forall key e,
    errs !! key = Some e ->
    exists k : Key.t, key = Key.name k /\ e = validate k (getField k data).

(** * Properties *)

(** ** Strings *)

Lemma isEmpty_true (s : jsstring) : isEmpty s = true <-> s = [].
Proof. destruct s; simpl; split; congruence. Qed.

Lemma isEmpty_false (s : jsstring) : isEmpty s = false <-> s <> [].
Proof. destruct s; simpl; split; congruence. Qed.

Lemma jsstring_eqb_eq (s t : jsstring) : jsstring_eqb s t = true <-> s = t.
Proof.
  revert t; induction s as [|c s IH]; intros [|d t]; simpl;
    try (split; congruence).
  rewrite andb_true_iff, N.eqb_eq, IH. split.
  - intros [-> ->]; reflexivity.
  - intros [= -> ->]; auto.
Qed.

Lemma endsWith_spec (s suffix : jsstring) :
  endsWith s suffix = true <-> exists front, s = front ++ suffix.
Proof.
  unfold endsWith. rewrite andb_true_iff, Nat.leb_le, jsstring_eqb_eq. split.
  - intros [Hlen Hskip].
    remember (List.length s - List.length suffix)%nat as n.
    exists (List.firstn n s).
    rewrite <- (List.firstn_skipn n s) at 1. rewrite Hskip. reflexivity.
  - intros [front ->]. rewrite List.length_app. split; [lia|].
    rewrite Nat.add_sub. apply drop_app_length.
Qed.

(** ** The matcher decides the denotation *)

Lemma matches_nil_nullable (r : regex) (s : jsstring) :
  matches r s -> s = [] -> nullable r = true.
Proof.
  induction 1 as [| | r1 r2 s1 s2 _ IH1 _ IH2 | r1 r2 s _ IH | r1 r2 s _ IH
                 | | ]; intros Hs; simpl; auto; try discriminate.
  - apply List.app_eq_nil in Hs as [-> ->]. rewrite IH1, IH2; auto.
  - rewrite IH; auto.
  - rewrite IH; auto using orb_true_r.
Qed.

Lemma nullable_matches (r : regex) : nullable r = true <-> matches r [].
Proof.
  split; [|intros H; eapply matches_nil_nullable; eauto].
  induction r as [| | p | r1 IH1 r2 IH2 | r1 IH1 r2 IH2 | r IH]; simpl;
    intros H; try discriminate.
  - constructor.
  - apply andb_true_iff in H as [H1 H2].
    change (@nil N) with (@nil N ++ []). constructor; auto.
  - apply orb_true_iff in H as [H|H]; [apply MAltL | apply MAltR]; auto.
  - constructor.
Qed.

Lemma deriv_sound (c : N) (r : regex) :
  forall s, matches (deriv c r) s -> matches r (c :: s).
Proof.
  induction r as [| | p | r1 IH1 r2 IH2 | r1 IH1 r2 IH2 | r IH]; simpl;
    intros s H.
  - inversion H.
  - inversion H.
  - destruct (p c) eqn:Hp; inversion H; subst. constructor; exact Hp.
  - destruct (nullable r1) eqn:Hn.
    + inversion H as [| | | ? ? ? HL | ? ? ? HR | | ]; subst.
      * inversion HL; subst.
        change (c :: ?a ++ ?b) with ((c :: a) ++ b). constructor; auto.
      * change (c :: s) with ([] ++ c :: s).
        constructor; [apply nullable_matches; exact Hn | auto].
    + inversion H; subst.
      change (c :: ?a ++ ?b) with ((c :: a) ++ b). constructor; auto.
  - inversion H; subst; [apply MAltL | apply MAltR]; auto.
  - inversion H; subst.
    change (c :: ?a ++ ?b) with ((c :: a) ++ b). constructor; auto.
Qed.

Lemma deriv_complete (c : N) (r : regex) (cs : jsstring) :
  matches r cs -> forall s, cs = c :: s -> matches (deriv c r) s.
Proof.
  induction 1 as [| p d Hp | r1 r2 s1 s2 H1 IH1 H2 IH2 | r1 r2 s0 _ IH
                 | r1 r2 s0 _ IH | | r s1 s2 H1 IH1 H2 IH2];
    intros s Hs; simpl; try discriminate.
  - injection Hs as -> <-. rewrite Hp. constructor.
  - destruct s1 as [|d s1]; simpl in Hs.
    + apply nullable_matches in H1. rewrite H1. apply MAltR; auto.
    + injection Hs as -> <-.
      destruct (nullable r1); [apply MAltL|]; constructor; auto.
  - apply MAltL; auto.
  - apply MAltR; auto.
  - destruct s1 as [|d s1]; simpl in Hs.
    + apply (IH2 _ Hs).
    + injection Hs as -> <-. constructor; auto.
Qed.

Lemma deriv_matches (c : N) (r : regex) (s : jsstring) :
  matches (deriv c r) s <-> matches r (c :: s).
Proof.
  split; [apply deriv_sound | intros H; eapply deriv_complete; eauto].
Qed.

Lemma fullMatch_matches (r : regex) (s : jsstring) :
  fullMatch r s = true <-> matches r s.
Proof.
  revert r; induction s as [|c s IH]; intros r; simpl.
  - apply nullable_matches.
  - rewrite IH. apply deriv_matches.
Qed.

Lemma matches_Eps (s : jsstring) : matches Eps s <-> s = [].
Proof. split; [inversion 1; auto | intros ->; constructor]. Qed.

Lemma matches_Class (p : N -> bool) (s : jsstring) :
  matches (Class p) s <-> exists c, s = [c] /\ p c = true.
Proof.
  split; [inversion 1; eauto | intros (c & -> & Hp); constructor; auto].
Qed.

Lemma matches_Cat (r1 r2 : regex) (s : jsstring) :
  matches (Cat r1 r2) s <->
  exists s1 s2, s = s1 ++ s2 /\ matches r1 s1 /\ matches r2 s2.
Proof.
  split; [inversion 1; eauto | intros (s1 & s2 & -> & H1 & H2)].
  constructor; auto.
Qed.

Lemma matches_Star_Class (p : N -> bool) (s : jsstring) :
  matches (Star (Class p)) s <-> forallb p s = true.
Proof.
  split.
  - intros H. remember (Star (Class p)) as r eqn:Hr.
    induction H as [| | | | | | r s1 s2 H1 _ H2 IH2]; try discriminate; auto.
    injection Hr as ->. rewrite forallb_app, IH2 by reflexivity.
    inversion H1 as [|? c Hp| | | | |]; subst. simpl. rewrite Hp. reflexivity.
  - induction s as [|c s IH]; simpl; intros H; [constructor|].
    apply andb_true_iff in H as [Hc Hs].
    change (c :: s) with ([c] ++ s). constructor; [constructor|]; auto.
Qed.

Lemma matches_Plus_Class (p : N -> bool) (s : jsstring) :
  matches (Plus (Class p)) s <-> s <> [] /\ forallb p s = true.
Proof.
  unfold Plus. rewrite matches_Cat. split.
  - intros (s1 & s2 & -> & H1 & H2).
    apply matches_Class in H1 as (c & -> & Hp).
    apply matches_Star_Class in H2. simpl. rewrite Hp, H2.
    split; [discriminate | reflexivity].
  - intros [Hne Hall]. destruct s as [|c s]; [congruence|].
    simpl in Hall. apply andb_true_iff in Hall as [Hc Hs].
    exists [c], s. repeat split.
    + constructor; auto.
    + apply matches_Star_Class; auto.
Qed.

(** A pattern anchored on both sides matches the whole input. *)
Lemma test_anchored (r : regex) (s : jsstring) :
  test (mkRegExp true r true) s = true <-> matches r s.
Proof.
  unfold test; simpl. rewrite fullMatch_matches, matches_Cat. split.
  - intros (s1 & s2 & -> & H1 & H2). apply matches_Eps in H1 as ->.
    apply matches_Cat in H2 as (t1 & t2 & -> & H2 & H3).
    apply matches_Eps in H3 as ->. rewrite List.app_nil_r. exact H2.
  - intros H. exists [], s. repeat split; [constructor|].
    apply matches_Cat. exists s, []. rewrite List.app_nil_r.
    repeat split; [auto | constructor].
Qed.

Lemma forallb_anyChar (s : jsstring) : forallb anyChar s = true.
Proof. induction s; simpl; auto. Qed.

(** A one-class pattern without anchors finds a code unit of the class
    anywhere in the input. *)
Lemma test_search_class (p : N -> bool) (s : jsstring) :
  test (mkRegExp false (Class p) false) s = existsb p s.
Proof.
  apply eq_true_iff_eq.
  unfold test; simpl. rewrite fullMatch_matches, matches_Cat, existsb_exists.
  split.
  - intros (s1 & s2 & -> & _ & H2).
    apply matches_Cat in H2 as (t1 & t2 & -> & H2 & _).
    apply matches_Class in H2 as (c & -> & Hp).
    exists c. split; [|exact Hp].
    apply List.in_or_app; right; left; reflexivity.
  - intros (c & Hin & Hp). apply List.in_split in Hin as (s1 & s2 & ->).
    exists s1, (c :: s2). repeat split.
    + apply matches_Star_Class, forallb_anyChar.
    + apply matches_Cat. exists [c], s2. repeat split.
      * constructor; auto.
      * apply matches_Star_Class, forallb_anyChar.
Qed.

Lemma test_digitsOnly (s : jsstring) :
  test digitsOnlyRegex s = negb (isEmpty s) && forallb isDigit s.
Proof.
  apply eq_true_iff_eq. unfold digitsOnlyRegex.
  rewrite test_anchored, matches_Plus_Class, andb_true_iff, negb_true_iff,
    isEmpty_false. reflexivity.
Qed.

Lemma test_emailRegex (v : jsstring) :
  test emailRegex v = true <-> localAtDomainTld v.
Proof.
  unfold emailRegex, localAtDomainTld, emailPart.
  rewrite test_anchored. split.
  - intros H.
    apply matches_Cat in H as (l & s1 & -> & Hl & H).
    apply matches_Cat in H as (a & s2 & -> & Ha & H).
    apply matches_Cat in H as (d & s3 & -> & Hd & H).
    apply matches_Cat in H as (o & t & -> & Ho & Ht).
    apply matches_Class in Ha as (ca & -> & Hca).
    apply matches_Class in Ho as (co & -> & Hco).
    apply N.eqb_eq in Hca as ->. apply N.eqb_eq in Hco as ->.
    apply matches_Plus_Class in Hl, Hd, Ht.
    exists l, d, t. auto.
  - intros (l & d & t & Hl & Hd & Ht & ->).
    apply matches_Plus_Class in Hl, Hd, Ht.
    repeat (constructor; auto).
Qed.

(** ** Character classes *)

(** Case analysis on every comparison of code units in the goal. *)
Ltac class_cases :=
  repeat (match goal with
          | |- context [N.leb ?a ?b] => destruct (N.leb_spec a b)
          | |- context [N.eqb ?a ?b] => destruct (N.eqb_spec a b)
          | H : context [N.leb ?a ?b] |- _ => destruct (N.leb_spec a b)
          | H : context [N.eqb ?a ?b] |- _ => destruct (N.eqb_spec a b)
          end; simpl in *; try lia; try congruence).

Lemma isDigit_range (c : N) : isDigit c = true <-> (48 <= c <= 57)%N.
Proof.
  unfold isDigit, inRange. rewrite andb_true_iff, !N.leb_le. reflexivity.
Qed.

Lemma isSpecial_In (c : N) : isSpecial c = true <-> In c (lit "!@#$%^&*").
Proof.
  unfold isSpecial. rewrite existsb_exists. split.
  - intros (d & Hd & Heq). apply N.eqb_eq in Heq as ->. exact Hd.
  - intros H. exists c. split; [exact H | apply N.eqb_refl].
Qed.

Lemma isDigit_not_whiteSpace (c : N) :
  isDigit c = true -> isWhiteSpace c = false.
Proof.
  unfold isDigit, isWhiteSpace, inRange. intros H. class_cases.
Qed.

Lemma existsb_isDigit (v : jsstring) :
  existsb isDigit v = true <-> hasDigit v.
Proof.
  unfold hasDigit. rewrite existsb_exists.
  split; intros (c & Hin & Hc); exists c; split; auto;
    apply isDigit_range; exact Hc.
Qed.

Lemma existsb_isSpecial (v : jsstring) :
  existsb isSpecial v = true <-> hasSpecial v.
Proof.
  unfold hasSpecial. rewrite existsb_exists.
  split; intros (c & Hin & Hc); exists c; split; auto;
    apply isSpecial_In; exact Hc.
Qed.

Lemma forallb_isDigit (v : jsstring) :
  forallb isDigit v = true <-> allDigits v.
Proof.
  unfold allDigits. rewrite forallb_forall.
  split; intros H c Hin; apply isDigit_range, H, Hin.
Qed.

Lemma jslength_ltb (v : jsstring) (n : Z) :
  (jslength v <? n) = true <-> Z.of_nat (List.length v) < n.
Proof. unfold jslength. apply Z.ltb_lt. Qed.

(** ** The validators *)

(** C4.  The email validator: the required message on the empty string;
    otherwise the format message when the value is not of the shape
    local@domain.tld; otherwise the suffix message when it ends neither in
    .com nor in .net; otherwise the empty string.  With the three inputs
    of the specification. *)
Theorem email_validator_rules :
  (forall v : jsstring,
      (v = [] -> validateField.email v = Msg.emailRequired) /\
      (v <> [] -> ~ localAtDomainTld v ->
       validateField.email v = Msg.emailFormat) /\
      (localAtDomainTld v ->
       ~ hasSuffix (lit ".com") v -> ~ hasSuffix (lit ".net") v ->
       validateField.email v = Msg.emailSuffix) /\
      (localAtDomainTld v ->
       hasSuffix (lit ".com") v \/ hasSuffix (lit ".net") v ->
       validateField.email v = Msg.none)) /\
  validateField.email (lit "a@b.com") = Msg.none /\
  validateField.email (lit "a@b.org") = Msg.emailSuffix /\
  validateField.email (lit "not-an-email") = Msg.emailFormat.
Proof.
  split; [|repeat split; vm_compute; reflexivity].
  intros v. unfold validateField.email.
  assert (Hshape : localAtDomainTld v -> isEmpty v = false).
  { intros (l & d & t & [Hl _] & _ & _ & ->). destruct l; [congruence|].
    reflexivity. }
  repeat split.
  - intros ->. reflexivity.
  - intros Hne Hno. apply isEmpty_false in Hne. rewrite Hne.
    destruct (test emailRegex v) eqn:Ht; [|reflexivity].
    apply test_emailRegex in Ht. contradiction.
  - intros Hl Hcom Hnet. rewrite (Hshape Hl).
    apply test_emailRegex in Hl. rewrite Hl. simpl.
    destruct (endsWith v (lit ".com")) eqn:H1.
    { apply endsWith_spec in H1. contradiction. }
    destruct (endsWith v (lit ".net")) eqn:H2.
    { apply endsWith_spec in H2. contradiction. }
    reflexivity.
  - intros Hl Hsuf. rewrite (Hshape Hl).
    apply test_emailRegex in Hl. rewrite Hl. simpl.
    destruct Hsuf as [H|H]; apply endsWith_spec in H; rewrite H;
      [|rewrite andb_false_r]; reflexivity.
Qed.

(** The rules of C4 at a@b.com. *)
Lemma email_validator_rules_witness :
  validateField.email (lit "a@b.com") = Msg.none.
Proof.
  apply (proj1 email_validator_rules (lit "a@b.com")).
  - exists (lit "a"), (lit "b"), (lit "com").
    repeat split; try discriminate; reflexivity.
  - left. exists (lit "a@b"). reflexivity.
Defined.

(** C5.  The password validator, the first failing rule deciding: the
    required message on the empty string; the length message under 8 code
    units; the number message without a digit; the special-character
    message without one of ! @ # $ % ^ & *; the empty string otherwise.
    With the two inputs of the specification. *)
Theorem password_validator_rules :
  (forall v : jsstring,
      (v = [] -> validateField.password v = Msg.passwordRequired) /\
      (v <> [] -> (List.length v < 8)%nat ->
       validateField.password v = Msg.passwordShort) /\
      ((8 <= List.length v)%nat -> ~ hasDigit v ->
       validateField.password v = Msg.passwordNumber) /\
      ((8 <= List.length v)%nat -> hasDigit v -> ~ hasSpecial v ->
       validateField.password v = Msg.passwordSpecial) /\
      ((8 <= List.length v)%nat -> hasDigit v -> hasSpecial v ->
       validateField.password v = Msg.none)) /\
  validateField.password (lit "abc12345") = Msg.passwordSpecial /\
  validateField.password (lit "abcd123!") = Msg.none.
Proof.
  split; [|split; vm_compute; reflexivity].
  intros v. unfold validateField.password, digitRegex, specialRegex.
  rewrite !test_search_class.
  assert (Hlong : (8 <= List.length v)%nat ->
                  isEmpty v = false /\ (jslength v <? 8) = false).
  { intros H. split; [destruct v; [simpl in H; lia | reflexivity]|].
    unfold jslength. apply Z.ltb_ge. lia. }
  repeat split.
  - intros ->. reflexivity.
  - intros Hne Hlen. apply isEmpty_false in Hne. rewrite Hne.
    assert (Hlt : (jslength v <? 8) = true) by (apply jslength_ltb; lia).
    rewrite Hlt. reflexivity.
  - intros Hlen Hd. destruct (Hlong Hlen) as [-> ->].
    destruct (existsb isDigit v) eqn:E; [|reflexivity].
    apply existsb_isDigit in E. contradiction.
  - intros Hlen Hd Hs. destruct (Hlong Hlen) as [-> ->].
    apply existsb_isDigit in Hd. rewrite Hd. simpl.
    destruct (existsb isSpecial v) eqn:E; [|reflexivity].
    apply existsb_isSpecial in E. contradiction.
  - intros Hlen Hd Hs. destruct (Hlong Hlen) as [-> ->].
    apply existsb_isDigit in Hd. apply existsb_isSpecial in Hs.
    rewrite Hd, Hs. reflexivity.
Qed.

(** The rules of C5 at abcd123!. *)
Lemma password_validator_rules_witness :
  validateField.password (lit "abcd123!") = Msg.none.
Proof.
  apply (proj1 password_validator_rules (lit "abcd123!")).
  - simpl. lia.
  - exists (ch "1"). split; [simpl; tauto | vm_compute; split; discriminate].
  - exists (ch "!"). split; simpl; tauto.
Defined.

(** ** parseInt on integer numerals *)

Lemma radixDigit_decimal (c : N) :
  isDigit c = true -> radixDigit 10 c = Some (Z.of_N c - 48).
Proof.
  intros H. unfold radixDigit, digitValue. fold (isDigit c). rewrite H.
  apply isDigit_range in H.
  destruct (Z.ltb_spec (Z.of_N c - 48) 10); [reflexivity | lia].
Qed.

Lemma parseDigits_decimal (ds : jsstring) :
  forallb isDigit ds = true ->
  forall acc : Z,
    parseDigits 10 (Some acc) ds =
    Some (fold_left (fun a c => a * 10 + (Z.of_N c - 48)) ds acc).
Proof.
  induction ds as [|c ds IH]; simpl; intros H acc; [reflexivity|].
  apply andb_true_iff in H as [Hc Hds].
  rewrite (radixDigit_decimal c Hc). simpl. apply IH, Hds.
Qed.

Lemma parseDigits_numeral (ds : jsstring) :
  ds <> [] -> forallb isDigit ds = true ->
  parseDigits 10 None ds = Some (digitsValue ds).
Proof.
  destruct ds as [|c ds]; [congruence|]. simpl. intros _ H.
  apply andb_true_iff in H as [Hc Hds].
  rewrite (radixDigit_decimal c Hc). simpl.
  unfold digitsValue. simpl. apply parseDigits_decimal, Hds.
Qed.

Lemma trimStart_app (ws t : jsstring) :
  forallb isWhiteSpace ws = true -> stopsBefore isWhiteSpace t ->
  trimStart (ws ++ t) = t.
Proof.
  intros Hws Ht. induction ws as [|c ws IH]; simpl.
  - destruct t as [|c t]; simpl in *; [reflexivity | rewrite Ht; reflexivity].
  - simpl in Hws. apply andb_true_iff in Hws as [Hc Hws].
    rewrite Hc. apply IH, Hws.
Qed.

Lemma radixDigit_not_decimal (c : N) :
  isDigit c = false -> radixDigit 10 c = None.
Proof.
  unfold radixDigit, digitValue. fold (isDigit c). intros ->.
  unfold inRange.
  destruct (N.leb_spec 97 c), (N.leb_spec c 122), (N.leb_spec 65 c),
    (N.leb_spec c 90); simpl; try reflexivity;
    match goal with
    | |- context [?a <? 10] => destruct (Z.ltb_spec a 10)
    end; try reflexivity; lia.
Qed.

Lemma parseDigits_prefix (ds rest : jsstring) :
  forallb isDigit ds = true -> stopsBefore isDigit rest ->
  forall acc : Z,
    parseDigits 10 (Some acc) (ds ++ rest) =
    Some (fold_left (fun a c => a * 10 + (Z.of_N c - 48)) ds acc).
Proof.
  intros Hds Hrest. induction ds as [|c ds IH]; simpl; intros acc.
  - destruct rest as [|c rest]; [reflexivity|]. simpl in *.
    rewrite (radixDigit_not_decimal c Hrest). reflexivity.
  - simpl in Hds. apply andb_true_iff in Hds as [Hc Hds].
    rewrite (radixDigit_decimal c Hc). simpl. apply IH, Hds.
Qed.

Lemma isDigit_not_sign (c : N) :
  isDigit c = true ->
  isChar "-" c = false /\ isChar "+" c = false /\
  isChar "x" c || isChar "X" c = false.
Proof.
  unfold isDigit, isChar, inRange, ch. simpl. intros H.
  repeat split; class_cases.
Qed.

(** A sign prefix is read off, and digits are not taken for a sign. *)
Lemma readSign_prefix (sgn ds rest : jsstring) :
  sgn = [] \/ sgn = [ch "-"] \/ sgn = [ch "+"] ->
  ds <> [] -> forallb isDigit ds = true ->
  readSign (sgn ++ ds ++ rest) = (signValue sgn, ds ++ rest).
Proof.
  intros [-> | [-> | ->]] Hne Hds; try reflexivity.
  destruct ds as [|c ds]; [congruence|]. simpl in Hds.
  apply andb_true_iff in Hds as [Hc _].
  destruct (isDigit_not_sign c Hc) as (Hm & Hp & _).
  cbn [app readSign]. rewrite Hm, Hp. reflexivity.
Qed.

(** Digits are read in radix 10 unless they are the [0] of a [0x]
    prefix. *)
Lemma readRadix_decimal (ds rest : jsstring) :
  ds <> [] -> forallb isDigit ds = true ->
  (ds = [ch "0"] -> stopsBefore (fun c => isChar "x" c || isChar "X" c) rest) ->
  readRadix (ds ++ rest) = (10, ds ++ rest).
Proof.
  intros Hne Hds Hhex. destruct ds as [|c0 [|c1 ds]]; [congruence| |].
  - destruct rest as [|c1 rest]; [reflexivity|]. cbn [app readRadix].
    destruct (isChar "0" c0) eqn:H0; [|reflexivity].
    apply N.eqb_eq in H0 as ->. simpl in Hhex. rewrite (Hhex eq_refl).
    reflexivity.
  - cbn [app readRadix]. simpl in Hds.
    apply andb_true_iff in Hds as [_ Hds].
    apply andb_true_iff in Hds as [Hc1 _].
    destruct (isDigit_not_sign c1 Hc1) as (_ & _ & ->).
    rewrite andb_false_r. reflexivity.
Qed.

(** The exact integer of [parseInt] on a leading numeral: what follows
    the numeral is ignored. *)
Lemma parseInt_leadingNumeral (v sgn ds : jsstring) :
  leadingNumeral v sgn ds ->
  parseInt v = Some (signValue sgn * digitsValue ds).
Proof.
  intros (ws & rest & -> & Hws & Hsgn & Hne & Hds & Hrest & Hhex).
  unfold parseInt. rewrite trimStart_app; [|exact Hws|].
  - cbv zeta. rewrite (readSign_prefix sgn ds rest Hsgn Hne Hds).
    rewrite (readRadix_decimal ds rest Hne Hds Hhex).
    destruct ds as [|c ds]; [congruence|]. simpl in Hds.
    apply andb_true_iff in Hds as [Hc Hds].
    cbn [app parseDigits]. rewrite (radixDigit_decimal c Hc).
    cbn [default]. rewrite (parseDigits_prefix ds rest Hds Hrest).
    reflexivity.
  - destruct Hsgn as [-> | [-> | ->]]; [|reflexivity|reflexivity].
    destruct ds as [|c ds]; [congruence|]. simpl in *.
    apply andb_true_iff in Hds as [Hc _].
    apply isDigit_not_whiteSpace, Hc.
Qed.

(** An integer numeral is a leading numeral with nothing around it. *)
Lemma integerNumeral_leadingNumeral (v : jsstring) (n : Z) :
  integerNumeral v = Some n ->
  exists sgn ds, leadingNumeral v sgn ds /\ n = signValue sgn * digitsValue ds.
Proof.
  unfold integerNumeral.
  assert (Hmk : forall sgn ds,
             sgn = [] \/ sgn = [ch "-"] \/ sgn = [ch "+"] ->
             negb (isEmpty ds) && forallb isDigit ds = true ->
             leadingNumeral (sgn ++ ds) sgn ds).
  { intros sgn ds Hsgn H. apply andb_true_iff in H as [Hne Hds].
    apply negb_true_iff, isEmpty_false in Hne.
    exists [], []. rewrite List.app_nil_r. simpl. tauto. }
  destruct v as [|c v]; [discriminate|].
  destruct (isChar "-" c) eqn:Hm; [|destruct (isChar "+" c) eqn:Hp].
  - apply N.eqb_eq in Hm as ->.
    destruct (negb (isEmpty v) && forallb isDigit v) eqn:E; [|discriminate].
    intros [= <-]. exists [ch "-"], v. split; [|reflexivity].
    apply (Hmk [ch "-"] v); auto.
  - apply N.eqb_eq in Hp as ->.
    destruct (negb (isEmpty v) && forallb isDigit v) eqn:E; [|discriminate].
    intros [= <-]. exists [ch "+"], v. split; [|reflexivity].
    apply (Hmk [ch "+"] v); auto.
  - destruct (negb (isEmpty (c :: v)) && forallb isDigit (c :: v)) eqn:E;
      [|discriminate].
    intros [= <-]. exists [], (c :: v). split; [|reflexivity].
    apply (Hmk [] (c :: v)); auto.
Qed.

(** The exact integer of [parseInt] on an optionally signed decimal
    numeral is the numeral's number. *)
Lemma parseInt_integerNumeral (v : jsstring) (n : Z) :
  integerNumeral v = Some n -> parseInt v = Some n.
Proof.
  intros H. apply integerNumeral_leadingNumeral in H as (sgn & ds & H & ->).
  apply parseInt_leadingNumeral, H.
Qed.

(** C6, as stated, fails at 20.5: the string is not an integer numeral,
    and the validator accepts it (parseInt reads the leading 20). *)
Lemma age_accepts_non_integer :
  integerNumeral (lit "20.5") = None /\
  validateField.age (lit "20.5") = Msg.none.
Proof. split; vm_compute; reflexivity. Qed.

(** C6, amended.  The age validator gives the required message on the
    empty string; otherwise the empty string exactly when parseInt of the
    value is a number in [18, 65], and the range message if not.  The
    value need not be an integer numeral for that: 20.5 is accepted.  A
    value that is an integer numeral is accepted exactly when its number
    is in [18, 65], and gets the range message if not.  With the three
    inputs of the specification. *)
Theorem age_validator_rules :
  (forall v : jsstring,
      (v = [] -> validateField.age v = Msg.ageRequired) /\
      (v <> [] -> (exists n, parseInt v = Some n /\ 18 <= n <= 65) ->
       validateField.age v = Msg.none) /\
      (v <> [] -> ~ (exists n, parseInt v = Some n /\ 18 <= n <= 65) ->
       validateField.age v = Msg.ageRange) /\
      (forall n,
          integerNumeral v = Some n ->
          (18 <= n <= 65 -> validateField.age v = Msg.none) /\
          (~ 18 <= n <= 65 -> validateField.age v = Msg.ageRange))) /\
  validateField.age (lit "20.5") = Msg.none /\
  validateField.age (lit "17") = Msg.ageRange /\
  validateField.age (lit "65") = Msg.none /\
  validateField.age (lit "abc") = Msg.ageRange.
Proof.
  split; [|repeat split; vm_compute; reflexivity].
  intros v. unfold validateField.age.
  split; [|split; [|split]].
  - intros ->. reflexivity.
  - intros Hne (n & -> & Hlo & Hhi). apply isEmpty_false in Hne.
    rewrite Hne.
    destruct (Z.ltb_spec n 18); [lia|].
    destruct (Z.gtb_spec n 65); [lia|]. reflexivity.
  - intros Hne Hno. apply isEmpty_false in Hne. rewrite Hne.
    destruct (parseInt v) as [n|]; [|reflexivity].
    destruct (Z.ltb_spec n 18); [reflexivity|].
    destruct (Z.gtb_spec n 65); [reflexivity|].
    exfalso. apply Hno. exists n. split; [reflexivity | lia].
  - intros n Hn.
    assert (Hne : isEmpty v = false) by (destruct v; [discriminate Hn|auto]).
    rewrite Hne, (parseInt_integerNumeral v n Hn).
    destruct (Z.ltb_spec n 18), (Z.gtb_spec n 65); cbn [orb];
      split; intros; try reflexivity; lia.
Qed.

(** The rules of C6 at 65. *)
Lemma age_validator_rules_witness :
  validateField.age (lit "65") = Msg.none.
Proof.
  apply (proj1 age_validator_rules (lit "65")).
  - discriminate.
  - exists 65. split; [vm_compute; reflexivity | lia].
Defined.

(** The phone validator's rules on any string. *)
Lemma phone_validator_cascade (x : jsstring) :
  validateField.phone x =
  if isEmpty x then Msg.phoneRequired
  else if negb (forallb isDigit x) then Msg.phoneNumbersOnly
  else if negb (List.length x =? 10)%nat then Msg.phoneLength
  else Msg.none.
Proof.
  unfold validateField.phone. rewrite test_digitsOnly.
  destruct x as [|c x]; [reflexivity|]. cbn [isEmpty negb andb].
  destruct (forallb isDigit (c :: x)); [|reflexivity]. cbn [negb].
  unfold jslength.
  destruct (Z.eqb_spec (Z.of_nat (List.length (c :: x))) 10) as [E|E];
    destruct (Nat.eqb_spec (List.length (c :: x)) 10) as [E'|E'];
    try reflexivity; lia.
Qed.

(** Replacing every [\D] by the empty string keeps the digits. *)
Lemma strip_nonDigits (v : jsstring) :
  replaceAllClass isNonDigit [] v = List.filter isDigit v.
Proof.
  unfold replaceAllClass, isNonDigit.
  induction v as [|c v IH]; simpl; [reflexivity|].
  destruct (isDigit c); simpl; rewrite IH; reflexivity.
Qed.

Lemma filter_isDigit_allDigits (v : jsstring) :
  forallb isDigit (List.filter isDigit v) = true.
Proof.
  apply forallb_forall. intros c Hc. apply List.filter_In in Hc. tauto.
Qed.

(** ** The form data *)

Lemma getField_setField (k : Key.t) (v : FieldType k) (d : FormData) :
  getField k (setField k v d) = v.
Proof. destruct k; reflexivity. Qed.

Lemma setField_setField (k : Key.t) (v w : FieldType k) (d : FormData) :
  setField k v (setField k w d) = setField k v d.
Proof. destruct k; reflexivity. Qed.

Lemma fold_valid (g : Key.t -> bool) (keys : list Key.t) (b : bool) :
  fold_left (fun (valid : bool) k => if g k then valid else false) keys b
  = b && forallb g keys.
Proof.
  revert b; induction keys as [|k keys IH]; intros b; simpl.
  - rewrite andb_true_r. reflexivity.
  - rewrite IH. destruct (g k), b; reflexivity.
Qed.

Lemma objectKeys_all (k : Key.t) : In k objectKeys.
Proof. destruct k; simpl; tauto. Qed.

(** The validity effect computes: all seven validators and the check of the
    selected country answer with the empty string. *)
Lemma computeValid_spec (data : FormData) (selected : jsstring) :
  computeValid data selected = true <->
  (forall k : Key.t, validate k (getField k data) = Msg.none) /\
  validateField.country selected = Msg.none.
Proof.
  unfold computeValid. cbv zeta.
  rewrite (fold_valid (fun k => isEmpty (validate k (getField k data)))).
  cbn [andb].
  destruct (isEmpty (validateField.country selected)) eqn:Hc.
  - apply isEmpty_true in Hc. rewrite forallb_forall. split.
    + intros H. split; [|exact Hc].
      intros k. apply isEmpty_true, H, objectKeys_all.
    + intros [H _] k _. apply isEmpty_true, H.
  - apply isEmpty_false in Hc. split; [discriminate|]. intros [_ H].
    contradiction.
Qed.

(** ** The form store *)

Section StoreProperties.

Context {JSNumber : Type} (numberToString : JSNumber -> jsstring).

(** The effect only writes [isFormValid]. *)
Lemma validityEffect_keeps (st : State) :
  selectedCountry (validityEffect st) = selectedCountry st /\
  formData (validityEffect st) = formData st /\
  errors (validityEffect st) = errors st /\
  isSubmitted (validityEffect st) = isSubmitted st.
Proof. repeat split. Qed.

Lemma validityEffect_valid (st : State) :
  isFormValid (validityEffect st) = true <->
  allFieldsValid (validityEffect st).
Proof. apply computeValid_spec. Qed.

(** C1.  [handleSubmit] on a form that is not valid changes nothing and
    logs nothing; on a valid form it sets [isSubmitted], leaves
    [formData] and [errors] as they are, and the submission data is
    [formData] with [country] replaced by [selectedCountry].  Once
    [isSubmitted] is set no event clears it. *)
Theorem submit_gated_by_validity (st : State) :
  (isFormValid st = false -> handleSubmit st = (st, None)) /\
  (isFormValid st = true ->
   isSubmitted (fst (handleSubmit st)) = true /\
   formData (fst (handleSubmit st)) = formData st /\
   errors (fst (handleSubmit st)) = errors st /\
   snd (handleSubmit st)
   = Some (setField Key.country (selectedCountry st) (formData st))) /\
  (forall ev,
      isSubmitted st = true -> isSubmitted (step numberToString ev st) = true).
Proof.
  split; [|split].
  - unfold handleSubmit. intros ->. reflexivity.
  - unfold handleSubmit. intros ->. repeat split.
  - intros ev Hs. destruct ev as [k v| v | |]; simpl; auto.
    unfold handleSubmit. destruct (isFormValid st); auto.
Qed.

(** C2.  In every reachable state [isFormValid] holds exactly when each
    validator accepts its field's current value and the country
    validator accepts [selectedCountry]; and the same right after an
    input change, a country change or a checkbox change from any
    state. *)
Theorem overall_validity_tracks_validators :
  (forall st,
      reachable numberToString st ->
      (isFormValid st = true <-> allFieldsValid st)) /\
  (forall k v st,
      let st' := step numberToString (InputChange k v) st in
      isFormValid st' = true <-> allFieldsValid st') /\
  (forall v st,
      let st' := step numberToString (CountryChange v) st in
      isFormValid st' = true <-> allFieldsValid st') /\
  (forall st,
      let st' := step numberToString CheckboxChange st in
      isFormValid st' = true <-> allFieldsValid st').
Proof.
  split; [|split; [|split]]; try (intros; apply validityEffect_valid).
  intros st. induction 1 as [|ev st Hr IH Hs].
  - apply validityEffect_valid.
  - destruct ev as [k v| v | |]; try apply validityEffect_valid.
    simpl. unfold handleSubmit.
    destruct (isFormValid st) eqn:Hv; simpl; [|rewrite Hv]; tauto.
Qed.

(** C3.  After [handleInputChange] the stored value is the processed
    value and the field's entry of [errors] is the field's validator on
    the stored value; after [handleCheckboxChange] the entry of
    [agreeToTerms] is its validator on the stored flag.  The effect that
    follows changes neither. *)
Theorem error_describes_stored_value :
  (forall k v st,
      let st' := handleInputChange numberToString k v st in
      getField k (formData st') = processValue numberToString k v /\
      errors st' !! Key.name k
      = Some (validate k (getField k (formData st')))) /\
  (forall st,
      let st' := handleCheckboxChange st in
      errors st' !! Key.name Key.agreeToTerms
      = Some (validate Key.agreeToTerms (agreeToTerms (formData st')))) /\
  (forall k v st,
      let st' := step numberToString (InputChange k v) st in
      errors st' !! Key.name k
      = Some (validate k (getField k (formData st')))) /\
  (forall st,
      let st' := step numberToString CheckboxChange st in
      errors st' !! Key.name Key.agreeToTerms
      = Some (validate Key.agreeToTerms (agreeToTerms (formData st')))).
Proof.
  assert (Hup : forall k v st,
             let st' := handleInputChange numberToString k v st in
             errors st' !! Key.name k
             = Some (validate k (getField k (formData st')))).
  { intros k v st. simpl. rewrite getField_setField. apply lookup_insert_eq. }
  assert (Hcb : forall st,
             let st' := handleCheckboxChange st in
             errors st' !! Key.name Key.agreeToTerms
             = Some (validate Key.agreeToTerms (agreeToTerms (formData st')))).
  { intros st. unfold handleCheckboxChange. cbn [errors formData].
    rewrite lookup_insert_eq. cbn [setField agreeToTerms validate].
    unfold validateField.agreeToTerms.
    destruct (agreeToTerms (formData st)); reflexivity. }
  split; [|split; [|split]].
  - intros k v st st'. split; [apply getField_setField | apply Hup].
  - apply Hcb.
  - intros k v st. apply Hup.
  - intros st. apply Hcb.
Qed.

(** C7.  [handleInputChange] on [phone] with a string stores the string
    without its non-digit code units, and records the phone validator's
    answer on the stored value: the required message when it is empty,
    the numbers-only message when it has a non-digit, the length message
    when it is not 10 long, the empty string otherwise.  With the two
    inputs of the specification. *)
Theorem phone_update_strips_then_validates :
  (forall (v : jsstring) (st : State),
      let st' := handleInputChange numberToString Key.phone (OfString v) st in
      let stored := phone (formData st') in
      stored = List.filter isDigit v /\
      errors st' !! Key.name Key.phone = Some (validateField.phone stored) /\
      (stored = [] -> validateField.phone stored = Msg.phoneRequired) /\
      (stored <> [] -> ~ allDigits stored ->
       validateField.phone stored = Msg.phoneNumbersOnly) /\
      (stored <> [] -> allDigits stored -> List.length stored <> 10%nat ->
       validateField.phone stored = Msg.phoneLength) /\
      (allDigits stored -> List.length stored = 10%nat ->
       validateField.phone stored = Msg.none)) /\
  (forall st,
      let st' :=
        handleInputChange numberToString Key.phone
          (OfString (lit "12a3456789")) st in
      phone (formData st') = lit "123456789" /\
      errors st' !! Key.name Key.phone = Some Msg.phoneLength) /\
  (forall st,
      let st' :=
        handleInputChange numberToString Key.phone
          (OfString (lit "1234567890")) st in
      phone (formData st') = lit "1234567890" /\
      errors st' !! Key.name Key.phone = Some Msg.none).
Proof.
  split; [|split; intros st; (split; [reflexivity | apply lookup_insert_eq])].
  intros v st st' stored.
  assert (Hstored : stored = List.filter isDigit v)
    by apply strip_nonDigits.
  split; [exact Hstored|]. split; [apply lookup_insert_eq|].
  rewrite phone_validator_cascade. clearbody stored. clear Hstored.
  repeat split.
  - intros ->. reflexivity.
  - intros Hne Hnd. apply isEmpty_false in Hne. rewrite Hne.
    destruct (forallb isDigit stored) eqn:E; [|reflexivity].
    apply forallb_isDigit in E. contradiction.
  - intros Hne Hd Hlen. apply isEmpty_false in Hne.
    apply forallb_isDigit in Hd. rewrite Hne, Hd.
    apply Nat.eqb_neq in Hlen. rewrite Hlen. reflexivity.
  - intros Hd Hlen. apply forallb_isDigit in Hd. rewrite Hd, Hlen.
    destruct stored; [discriminate | reflexivity].
Qed.

(** C8.  [handleCountryChange] stores the value in [selectedCountry] and
    in [formData.country], so the two agree afterwards (also after the
    effect); and the country of any submission data is
    [selectedCountry]. *)
Theorem country_change_syncs_both_slots :
  (forall (v : jsstring) (st : State),
      let st' := handleCountryChange numberToString v st in
      selectedCountry st' = v /\
      country (formData st') = v /\
      country (formData st') = selectedCountry st') /\
  (forall (v : jsstring) (st : State),
      let st' := step numberToString (CountryChange v) st in
      selectedCountry st' = v /\
      country (formData st') = selectedCountry st') /\
  (forall (st : State) (submissionData : FormData),
      snd (handleSubmit st) = Some submissionData ->
      country submissionData = selectedCountry st).
Proof.
  split; [|split].
  - intros v st. repeat split.
  - intros v st. repeat split.
  - intros st d. unfold handleSubmit.
    destruct (isFormValid st); simpl; [|discriminate].
    intros [= <-]. reflexivity.
Qed.

(** C9.  [handleInputChange] with the same field and value a second time
    changes nothing: the whole state, [formData] and [errors] with it, is
    the one after the first call; the same with the effect after each
    call. *)
Theorem update_idempotent :
  (forall k v st,
      handleInputChange numberToString k v
        (handleInputChange numberToString k v st)
      = handleInputChange numberToString k v st) /\
  (forall k v st,
      step numberToString (InputChange k v)
        (step numberToString (InputChange k v) st)
      = step numberToString (InputChange k v) st).
Proof.
  split; intros k v st; cbn [step]; unfold handleInputChange, validityEffect;
    cbn [selectedCountry formData errors isSubmitted isFormValid];
    rewrite setField_setField, insert_insert_eq; reflexivity.
Qed.

(** C10.  After [handleInputChange] on [phone] with a string the stored
    value is empty or made of digits only, so the entry of [errors] is
    the validator's answer on it and is never the numbers-only message:
    it is the required message when the stored value is empty, and
    otherwise the length message or the empty string. *)
Theorem phone_numbers_only_unreachable (v : jsstring) (st : State) :
  let st' := handleInputChange numberToString Key.phone (OfString v) st in
  let stored := phone (formData st') in
  let error := validateField.phone stored in
  errors st' !! Key.name Key.phone = Some error /\
  (stored = [] \/ (stored <> [] /\ allDigits stored)) /\
  (stored = [] -> error = Msg.phoneRequired) /\
  (stored <> [] -> error = Msg.phoneLength \/ error = Msg.none) /\
  error <> Msg.phoneNumbersOnly.
Proof.
  intros st' stored error. split; [apply lookup_insert_eq|].
  assert (Hd : forallb isDigit stored = true).
  { unfold stored. simpl. rewrite strip_nonDigits.
    apply filter_isDigit_allDigits. }
  assert (Herr : error =
                 if isEmpty stored then Msg.phoneRequired
                 else if negb (List.length stored =? 10)%nat
                      then Msg.phoneLength else Msg.none).
  { unfold error. rewrite phone_validator_cascade, Hd. reflexivity. }
  clearbody error stored. subst error.
  destruct stored as [|c x]; cbn [isEmpty].
  - repeat split; auto; try discriminate. congruence.
  - split; [right; split; [discriminate | apply forallb_isDigit, Hd]|].
    split; [discriminate|].
    destruct (negb _); split; auto; discriminate.
Qed.

End StoreProperties.

(** ** The session of the specification *)

Lemma filledState_reachable : reachable integerToString filledState.
Proof.
  cbv [filledState run sessionEvents fold_left].
  repeat (apply reachable_step; [|vm_compute; reflexivity]).
  apply reachable_mounted.
Qed.

(** The fully populated form holds the values of the specification, is
    valid, and its submission shows the success state with these values as
    the submission data. *)
Example filledState_submits :
  formData filledState
  = mkFormData (lit "John Doe") (lit "john@test.com") (lit "Abcdef1!")
      (lit "1234567890") (lit "30") true (lit "usa") /\
  isFormValid filledState = true /\
  isSubmitted (fst (handleSubmit filledState)) = true /\
  snd (handleSubmit filledState) = Some (formData filledState).
Proof. repeat split; vm_compute; reflexivity. Qed.

(** An empty field keeps the submit a no-op: the session without its
    first event, the full name. *)
Example missing_field_blocks_submit :
  handleSubmit (run (List.tl sessionEvents) mounted)
  = (run (List.tl sessionEvents) mounted, None).
Proof. vm_compute. reflexivity. Qed.

(** C1 on the freshly mounted form (not valid) and on the filled form
    (valid). *)
Lemma submit_gated_by_validity_witness :
  handleSubmit mounted = (mounted, None) /\
  snd (handleSubmit filledState)
  = Some (setField Key.country (selectedCountry filledState)
            (formData filledState)).
Proof.
  split.
  - apply (proj1 (submit_gated_by_validity integerToString mounted)).
    reflexivity.
  - apply (proj1 (proj2 (submit_gated_by_validity integerToString
                           filledState))).
    vm_compute. reflexivity.
Defined.

(** C2 on the filled form. *)
Lemma overall_validity_tracks_validators_witness :
  allFieldsValid filledState.
Proof.
  apply (proj1 (overall_validity_tracks_validators integerToString)
           filledState filledState_reachable).
  vm_compute. reflexivity.
Defined.

(** C7 on the nine digits left of 12a3456789. *)
Lemma phone_update_strips_then_validates_witness :
  validateField.phone
    (phone (formData (handleInputChange integerToString Key.phone
                        (OfString (lit "12a3456789")) initialState)))
  = Msg.phoneLength.
Proof.
  apply (proj1 (phone_update_strips_then_validates integerToString)
           (lit "12a3456789") initialState).
  - vm_compute. discriminate.
  - apply forallb_isDigit. vm_compute. reflexivity.
  - vm_compute. discriminate.
Defined.

(** C8 on the submission of the filled form. *)
Lemma country_change_syncs_both_slots_witness :
  country (setField Key.country (selectedCountry filledState)
             (formData filledState))
  = selectedCountry filledState.
Proof.
  apply (proj2 (proj2 (country_change_syncs_both_slots integerToString))
           filledState).
  vm_compute. reflexivity.
Defined.

(** C10 on a string without digits. *)
Lemma phone_numbers_only_unreachable_witness :
  validateField.phone
    (phone (formData (handleInputChange integerToString Key.phone
                        (OfString (lit "abc")) initialState)))
  = Msg.phoneRequired.
Proof.
  apply (phone_numbers_only_unreachable integerToString (lit "abc")
           initialState).
  vm_compute. reflexivity.
Defined.

(** * Further properties of the component *)

(** ** What each validator accepts *)

(** Closes a goal whose hypothesis equates two different messages. *)
Ltac message_clash H := exfalso; vm_compute in H; discriminate H.

Lemma localAtDomainTld_nonempty (v : jsstring) :
  localAtDomainTld v -> isEmpty v = false.
Proof.
  intros (l & d & t & [Hl _] & _ & _ & ->).
  destruct l; [congruence | reflexivity].
Qed.

Lemma fullName_accepts (v : jsstring) :
  validateField.fullName v = Msg.none <-> (3 <= List.length v)%nat.
Proof.
  unfold validateField.fullName, jslength.
  destruct v as [|c v]; cbn [isEmpty].
  - split; intros H; [message_clash H | simpl in H; lia].
  - destruct (Z.ltb_spec (Z.of_nat (List.length (c :: v))) 3).
    + split; intros H'; [message_clash H' | lia].
    + split; [lia | reflexivity].
Qed.

Lemma email_accepts (v : jsstring) :
  validateField.email v = Msg.none <->
  localAtDomainTld v /\
  (hasSuffix (lit ".com") v \/ hasSuffix (lit ".net") v).
Proof.
  unfold validateField.email, hasSuffix.
  rewrite <- test_emailRegex, <- !endsWith_spec.
  destruct (isEmpty v) eqn:E.
  - split; [intros H; message_clash H|]. intros [H _].
    apply test_emailRegex, localAtDomainTld_nonempty in H. congruence.
  - destruct (test emailRegex v); cbn [negb].
    + destruct (endsWith v (lit ".com")), (endsWith v (lit ".net"));
        cbn [negb andb]; split; auto;
        try (intros H; message_clash H).
      intros [_ [H|H]]; discriminate.
    + split; [intros H; message_clash H | intros [H _]; discriminate].
Qed.

Lemma password_accepts (v : jsstring) :
  validateField.password v = Msg.none <->
  (8 <= List.length v)%nat /\ hasDigit v /\ hasSpecial v.
Proof.
  unfold validateField.password, digitRegex, specialRegex, jslength.
  rewrite !test_search_class, <- existsb_isDigit, <- existsb_isSpecial.
  destruct v as [|c v]; cbn [isEmpty].
  - split; [intros H; message_clash H | simpl; lia].
  - destruct (Z.ltb_spec (Z.of_nat (List.length (c :: v))) 8).
    + split; [intros H'; message_clash H' | lia].
    + destruct (existsb isDigit (c :: v)); cbn [negb].
      * destruct (existsb isSpecial (c :: v)); cbn [negb].
        -- split; [intros _; repeat split; lia | reflexivity].
        -- split; [intros H'; message_clash H' | intros (_ & _ & H')].
           discriminate.
      * split; [intros H'; message_clash H' | intros (_ & H' & _)].
        discriminate.
Qed.

Lemma phone_accepts (v : jsstring) :
  validateField.phone v = Msg.none <->
  List.length v = 10%nat /\ allDigits v.
Proof.
  rewrite phone_validator_cascade, <- forallb_isDigit.
  destruct v as [|c v]; cbn [isEmpty].
  - split; [intros H; message_clash H | intros [H _]; discriminate].
  - destruct (forallb isDigit (c :: v)); cbn [negb].
    + destruct (Nat.eqb_spec (List.length (c :: v)) 10); cbn [negb].
      * split; auto.
      * split; [intros H; message_clash H | intros [H _]; contradiction].
    + split; [intros H; message_clash H | intros [_ H]; discriminate].
Qed.

Lemma age_accepts (v : jsstring) :
  validateField.age v = Msg.none <->
  exists n, parseInt v = Some n /\ 18 <= n <= 65.
Proof.
  unfold validateField.age. destruct v as [|c v]; cbn [isEmpty].
  - split; [intros H; message_clash H | intros (n & H & _)].
    discriminate.
  - destruct (parseInt (c :: v)) as [n|].
    + destruct (Z.ltb_spec n 18); cbn [orb].
      * split; [intros H'; message_clash H' | intros (m & [= <-] & ?); lia].
      * destruct (Z.gtb_spec n 65).
        -- split; [intros H'; message_clash H'|].
           intros (m & [= <-] & ?); lia.
        -- split; [intros _; exists n; split; [reflexivity | lia]|].
           reflexivity.
    + split; [intros H; message_clash H | intros (n & H & _)].
      discriminate.
Qed.

Lemma country_accepts (v : jsstring) :
  validateField.country v = Msg.none <-> v <> [].
Proof.
  unfold validateField.country. destruct v; cbn [isEmpty].
  - split; [intros H; message_clash H | congruence].
  - split; [discriminate | reflexivity].
Qed.

Lemma agreeToTerms_accepts (b : bool) :
  validateField.agreeToTerms b = Msg.none <-> b = true.
Proof.
  destruct b; cbn; split; auto; intros H; [|discriminate].
  message_clash H.
Qed.

(** X1.  The full-name validator: the required message on the empty
    string, the length message on one or two code units, and the empty
    string from three code units on, whatever they are (the value is not
    trimmed). *)
Theorem fullName_validator_rules (v : jsstring) :
  (v = [] -> validateField.fullName v = Msg.fullNameRequired) /\
  (v <> [] -> (List.length v < 3)%nat ->
   validateField.fullName v = Msg.fullNameShort) /\
  (validateField.fullName v = Msg.none <-> (3 <= List.length v)%nat) /\
  (forallb isWhiteSpace v = true -> List.length v = 3%nat ->
   validateField.fullName v = Msg.none).
Proof.
  split; [|split; [|split]].
  - intros ->. reflexivity.
  - intros Hne Hlen. unfold validateField.fullName.
    apply isEmpty_false in Hne. rewrite Hne.
    assert (Hlt : (jslength v <? 3) = true) by (apply jslength_ltb; lia).
    rewrite Hlt. reflexivity.
  - apply fullName_accepts.
  - intros _ Hlen. apply fullName_accepts. lia.
Qed.

(** X1 on a name of two letters and on three spaces. *)
Lemma fullName_validator_rules_witness :
  validateField.fullName (lit "Al") = Msg.fullNameShort /\
  validateField.fullName (lit "   ") = Msg.none.
Proof.
  split.
  - apply (fullName_validator_rules (lit "Al")); [discriminate | simpl; lia].
  - apply (fullName_validator_rules (lit "   ")); reflexivity.
Defined.

(** X2.  Each validator returns the empty string on exactly the values
    that pass all its rules: the email of the shape local@domain.tld
    ending in .com or .net; the password of 8 or more code units with a
    digit and a special character; the phone of exactly 10 digits; the age
    whose parseInt lies in [18, 65]; the non-empty country; the agreement
    that is true. *)
Theorem validators_accept_exactly :
  (forall v, validateField.email v = Msg.none <->
             localAtDomainTld v /\
             (hasSuffix (lit ".com") v \/ hasSuffix (lit ".net") v)) /\
  (forall v, validateField.password v = Msg.none <->
             (8 <= List.length v)%nat /\ hasDigit v /\ hasSpecial v) /\
  (forall v, validateField.phone v = Msg.none <->
             List.length v = 10%nat /\ allDigits v) /\
  (forall v, validateField.age v = Msg.none <->
             exists n, parseInt v = Some n /\ 18 <= n <= 65) /\
  (forall v, validateField.country v = Msg.none <-> v <> []) /\
  (forall b, validateField.agreeToTerms b = Msg.none <-> b = true).
Proof.
  repeat apply conj.
  - apply email_accepts.
  - apply password_accepts.
  - apply phone_accepts.
  - apply age_accepts.
  - apply country_accepts.
  - apply agreeToTerms_accepts.
Qed.

(** ** How the handlers compose *)

Lemma Key_name_inj (k k' : Key.t) : Key.name k = Key.name k' -> k = k'.
Proof. destruct k, k'; simpl; intros H; try reflexivity; discriminate H. Qed.

Lemma getField_setField_ne (k k' : Key.t) (v : FieldType k) (d : FormData) :
  k' <> k -> getField k' (setField k v d) = getField k' d.
Proof. destruct k, k'; intros H; try reflexivity; congruence. Qed.

Lemma setField_commute (k k' : Key.t) (v : FieldType k) (v' : FieldType k')
    (d : FormData) :
  k <> k' -> setField k v (setField k' v' d) = setField k' v' (setField k v d).
Proof. destruct k, k'; intros H; try reflexivity; congruence. Qed.

Lemma setField_getField (k : Key.t) (d : FormData) :
  setField k (getField k d) d = d.
Proof. destruct d, k; reflexivity. Qed.

Section StoreComposition.

Context {JSNumber : Type} (numberToString : JSNumber -> jsstring).

(** In a reachable state [isFormValid] is what the effect computes from
    [formData] and [selectedCountry]. *)
Lemma reachable_isFormValid (st : State) :
  reachable numberToString st ->
  isFormValid st = computeValid (formData st) (selectedCountry st).
Proof.
  induction 1 as [|ev st Hr IH Hs]; [reflexivity|].
  destruct ev as [k v| v | |]; try reflexivity.
  simpl. unfold handleSubmit.
  destruct (isFormValid st) eqn:Hv; simpl; [|rewrite Hv]; exact IH.
Qed.

(** X3.  [handleInputChange] on a field writes that field of [formData]
    and that property of [errors] only: the other fields, the other
    properties, [selectedCountry], [isSubmitted] and [isFormValid] are as
    before. *)
Theorem input_change_touches_one_field (k : Key.t)
    (v : RawType JSNumber k) (st : State) :
  let st' := handleInputChange numberToString k v st in
  selectedCountry st' = selectedCountry st /\
  isSubmitted st' = isSubmitted st /\
  isFormValid st' = isFormValid st /\
  (forall k', k' <> k ->
              getField k' (formData st') = getField k' (formData st)) /\
  (forall key, key <> Key.name k -> errors st' !! key = errors st !! key).
Proof.
  intros st'. repeat split.
  - intros k' Hk. apply getField_setField_ne, Hk.
  - intros key Hkey. apply lookup_insert_ne. congruence.
Qed.

(** X4.  Changes of two different fields commute: either order gives the
    same state, with or without the effect after each. *)
Theorem input_changes_commute (k k' : Key.t) (v : RawType JSNumber k)
    (v' : RawType JSNumber k') (st : State) :
  k <> k' ->
  handleInputChange numberToString k v
    (handleInputChange numberToString k' v' st)
  = handleInputChange numberToString k' v'
      (handleInputChange numberToString k v st) /\
  step numberToString (InputChange k v)
    (step numberToString (InputChange k' v') st)
  = step numberToString (InputChange k' v')
      (step numberToString (InputChange k v) st).
Proof.
  intros Hk.
  assert (Hname : Key.name k <> Key.name k')
    by (intros H; apply Hk, Key_name_inj, H).
  split; cbn [step]; unfold handleInputChange, validityEffect;
    cbn [selectedCountry formData errors isSubmitted isFormValid];
    rewrite (setField_commute k k') by exact Hk;
    rewrite (insert_insert_ne _ (Key.name k) (Key.name k')) by exact Hname;
    reflexivity.
Qed.

(** X5.  A later change of a field overrides an earlier one of the same
    field: the state is the one the later change alone gives; the same
    for two country changes. *)
Theorem later_change_overrides :
  (forall k v w st,
      handleInputChange numberToString k v
        (handleInputChange numberToString k w st)
      = handleInputChange numberToString k v st) /\
  (forall k v w st,
      step numberToString (InputChange k v)
        (step numberToString (InputChange k w) st)
      = step numberToString (InputChange k v) st) /\
  (forall v w st,
      step numberToString (CountryChange v)
        (step numberToString (CountryChange w) st)
      = step numberToString (CountryChange v) st).
Proof.
  repeat apply conj; intros; cbn [step];
    unfold handleCountryChange, handleInputChange, validityEffect;
    cbn [selectedCountry formData errors isSubmitted isFormValid];
    rewrite setField_setField, insert_insert_eq; reflexivity.
Qed.

(** X6.  [handleCheckboxChange] flips the agreement and nothing else of
    [formData]; its error is cleared exactly when the agreement becomes
    true; the other properties of [errors] are kept; and a second call
    gives back the [formData] before the first, with the error of that
    agreement. *)
Theorem checkbox_toggles (st : State) :
  let st' := handleCheckboxChange st in
  agreeToTerms (formData st') = negb (agreeToTerms (formData st)) /\
  (forall k, k <> Key.agreeToTerms ->
             getField k (formData st') = getField k (formData st)) /\
  (errors st' !! Key.name Key.agreeToTerms = Some Msg.none <->
   agreeToTerms (formData st) = false) /\
  (forall key, key <> Key.name Key.agreeToTerms ->
               errors st' !! key = errors st !! key) /\
  formData (handleCheckboxChange st') = formData st /\
  errors (handleCheckboxChange st') !! Key.name Key.agreeToTerms
  = Some (validateField.agreeToTerms (agreeToTerms (formData st))).
Proof.
  intros st'. unfold st', handleCheckboxChange.
  cbn [formData errors setField agreeToTerms].
  split; [reflexivity|]. split.
  { intros k Hk. destruct k; try reflexivity. congruence. }
  split.
  { rewrite lookup_insert_eq.
    destruct (agreeToTerms (formData st)); cbn [negb].
    - split; [intros [= H]; message_clash H | discriminate].
    - split; reflexivity. }
  split.
  { intros key Hkey. apply lookup_insert_ne. congruence. }
  split.
  { rewrite negb_involutive. destruct (formData st); reflexivity. }
  rewrite lookup_insert_eq, negb_involutive.
  destruct (agreeToTerms (formData st)); reflexivity.
Qed.

(** X7.  A phone typed with any formatting is accepted exactly when it
    has ten digits: the recorded error is empty if and only if the raw
    string has exactly ten decimal digits among its code units; two raw
    strings with the same digits give the same state; and the stored
    value is never longer than the raw one. *)
Theorem phone_accepted_iff_ten_digits (v : jsstring) (st : State) :
  let st' := handleInputChange numberToString Key.phone (OfString v) st in
  (errors st' !! Key.name Key.phone = Some Msg.none <->
   List.length (List.filter isDigit v) = 10%nat) /\
  (forall w,
      List.filter isDigit w = List.filter isDigit v ->
      handleInputChange numberToString Key.phone (OfString w) st = st') /\
  (List.length (phone (formData st')) <= List.length v)%nat.
Proof.
  intros st'. unfold st', handleInputChange, processValue.
  cbn [errors formData convert stripPhone textOf setField phone validate].
  rewrite strip_nonDigits. split; [|split].
  - rewrite lookup_insert_eq. split.
    + intros [= H]. apply phone_accepts in H. tauto.
    + intros H. f_equal. apply phone_accepts. split; [exact H|].
      apply forallb_isDigit, filter_isDigit_allDigits.
  - intros w Hw. rewrite !strip_nonDigits, Hw. reflexivity.
  - apply List.filter_length_le.
Qed.

End StoreComposition.

(** X4 on the full name and the email of the session. *)
Lemma input_changes_commute_witness :
  handleInputChange integerToString Key.fullName (OfString (lit "John Doe"))
    (handleInputChange integerToString Key.email
       (OfString (lit "john@test.com")) initialState)
  = handleInputChange integerToString Key.email
      (OfString (lit "john@test.com"))
      (handleInputChange integerToString Key.fullName
         (OfString (lit "John Doe")) initialState).
Proof.
  apply (input_changes_commute integerToString Key.fullName Key.email).
  discriminate.
Defined.

(** X7 on a phone written with brackets, a space and a dash. *)
Lemma phone_accepted_iff_ten_digits_witness :
  errors (handleInputChange integerToString Key.phone
            (OfString (lit "(123) 456-7890")) initialState)
    !! Key.name Key.phone = Some Msg.none.
Proof.
  apply (phone_accepted_iff_ten_digits integerToString
           (lit "(123) 456-7890") initialState).
  reflexivity.
Defined.

(** ** Invariants of the reachable states *)

Lemma computeValid_acceptable (data : FormData) (selected : jsstring) :
  computeValid data selected = true <-> acceptable data selected.
Proof.
  rewrite computeValid_spec. unfold acceptable.
  rewrite <- fullName_accepts, <- email_accepts, <- password_accepts,
    <- phone_accepts, <- age_accepts, <- agreeToTerms_accepts,
    <- !country_accepts.
  split.
  - intros [H Hsel].
    pose proof (H Key.fullName). pose proof (H Key.email).
    pose proof (H Key.password). pose proof (H Key.phone).
    pose proof (H Key.age). pose proof (H Key.agreeToTerms).
    pose proof (H Key.country). tauto.
  - intros (H1 & H2 & H3 & H4 & H5 & H6 & H7 & Hsel).
    split; [|exact Hsel]. intros k; destruct k; assumption.
Qed.

Lemma blank_required (k : Key.t) :
  validate k (blank k) = requiredMessage k /\ requiredMessage k <> Msg.none.
Proof. destruct k; split; try reflexivity; intros H; message_clash H. Qed.

Lemma errorsDescribe_insert (k : Key.t) (v : FieldType k) (data : FormData)
    (errs : gmap string jsstring) :
  errorsDescribe data errs ->
  errorsDescribe (setField k v data) (<[Key.name k := validate k v]> errs).
Proof.
  intros H key e Hkey. apply lookup_insert_Some in Hkey as [[<- <-]|[Hne Hkey]].
  - exists k. rewrite getField_setField. auto.
  - destruct (H key e Hkey) as (k' & -> & ->). exists k'. split; [reflexivity|].
    rewrite getField_setField_ne; [reflexivity|]. congruence.
Qed.

Section ReachableInvariants.

Context {JSNumber : Type} (numberToString : JSNumber -> jsstring).

(** X8.  In every reachable state each property of [errors] is named
    after a field and is that field's validator on the value [formData]
    holds for it now: a message that is shown is never out of date, also
    after changes of other fields. *)
Theorem errors_never_stale (st : State) :
  reachable numberToString st ->
  errorsDescribe (formData st) (errors st) /\
  (forall k e,
      errors st !! Key.name k = Some e ->
      e = validate k (getField k (formData st))).
Proof.
  intros Hr.
  assert (Hd : errorsDescribe (formData st) (errors st)).
  { induction Hr as [|ev st Hr IH Hs].
    - intros key e H. cbn in H. rewrite lookup_empty in H. discriminate.
    - destruct ev as [k v| v | |]; cbn [step validityEffect formData errors].
      + apply errorsDescribe_insert, IH.
      + apply (errorsDescribe_insert Key.country), IH.
      + unfold handleCheckboxChange. cbn [formData errors].
        replace (if negb (agreeToTerms (formData st))
                 then Msg.none else Msg.termsRequired)
          with (validate Key.agreeToTerms (negb (agreeToTerms (formData st))))
          by (cbn; destruct (agreeToTerms (formData st)); reflexivity).
        apply (errorsDescribe_insert Key.agreeToTerms), IH.
      + unfold handleSubmit. destruct (isFormValid st); exact IH. }
  split; [exact Hd|].
  intros k e H. destruct (Hd _ _ H) as (k' & Hk & ->).
  apply Key_name_inj in Hk as <-. reflexivity.
Qed.

(** X9.  In every reachable state with [isFormValid] true no property of
    [errors] holds a message.  Not the other way round: right after
    mounting [errors] is empty and [isFormValid] is false. *)
Theorem valid_form_shows_no_error :
  (forall st,
      reachable numberToString st -> isFormValid st = true ->
      forall key e, errors st !! key = Some e -> e = Msg.none) /\
  errors mounted = ∅ /\ isFormValid mounted = false.
Proof.
  split; [|split; reflexivity].
  intros st Hr Hv key e He.
  rewrite (reachable_isFormValid numberToString st Hr) in Hv.
  apply computeValid_spec in Hv as [Hall _].
  destruct (proj1 (errors_never_stale st Hr) key e He) as (k & _ & ->).
  apply Hall.
Qed.

(** X10.  In every reachable state [isFormValid] is true exactly when the
    data pass all the rules: a full name of 3 or more code units, an email
    local@domain.tld ending in .com or .net, a password of 8 or more code
    units with a digit and a special character, a phone of 10 digits, an
    age whose parseInt is in [18, 65], the agreement, a country in
    [formData] and a selected country.  [handleSubmit] logs the submission
    data in that case and does nothing otherwise. *)
Theorem valid_exactly_when_acceptable (st : State) :
  reachable numberToString st ->
  (isFormValid st = true <-> acceptable (formData st) (selectedCountry st)) /\
  (acceptable (formData st) (selectedCountry st) ->
   snd (handleSubmit st)
   = Some (setField Key.country (selectedCountry st) (formData st))) /\
  (~ acceptable (formData st) (selectedCountry st) ->
   handleSubmit st = (st, None)).
Proof.
  intros Hr.
  assert (Hiff : isFormValid st = true <->
                 acceptable (formData st) (selectedCountry st)).
  { rewrite (reachable_isFormValid numberToString st Hr).
    apply computeValid_acceptable. }
  split; [exact Hiff|]. unfold handleSubmit. split.
  - intros H. apply Hiff in H. rewrite H. reflexivity.
  - intros H. destruct (isFormValid st); [|reflexivity].
    exfalso. apply H, Hiff. reflexivity.
Qed.

(** X11.  Each validator answers its required message, which is not
    empty, on the value its field starts with; so in a reachable state
    where some field still holds that value, or no country is selected,
    [handleSubmit] changes nothing and logs nothing, whatever the other
    fields hold. *)
Theorem blank_field_blocks_submit :
  (forall k, validate k (blank k) = requiredMessage k /\
             requiredMessage k <> Msg.none) /\
  (forall st,
      reachable numberToString st ->
      (exists k, getField k (formData st) = blank k) \/
      selectedCountry st = [] ->
      handleSubmit st = (st, None)).
Proof.
  split; [apply blank_required|].
  intros st Hr Hblank. unfold handleSubmit.
  destruct (isFormValid st) eqn:Hv; [|reflexivity]. exfalso.
  rewrite (reachable_isFormValid numberToString st Hr) in Hv.
  apply computeValid_spec in Hv as [Hall Hsel].
  destruct Hblank as [[k Hk] | Hnone].
  - specialize (Hall k). rewrite Hk in Hall.
    destruct (blank_required k) as [Hreq Hne]. congruence.
  - rewrite Hnone in Hsel. message_clash Hsel.
Qed.

(** X12.  A reachable state with [isSubmitted] true holds data that pass
    all the rules: the success view is only ever shown for an acceptable
    form. *)
Theorem submitted_only_when_acceptable (st : State) :
  reachable numberToString st -> isSubmitted st = true ->
  acceptable (formData st) (selectedCountry st).
Proof.
  induction 1 as [|ev st Hr IH Hs]; [discriminate|].
  destruct ev as [k v| v | |]; cbn; try congruence.
  unfold handleSubmit. destruct (isFormValid st) eqn:Hv; cbn; [|congruence].
  intros _. apply computeValid_acceptable.
  rewrite <- (reachable_isFormValid numberToString st Hr). exact Hv.
Qed.

Lemma rendered_reachable (st : State) :
  rendered numberToString st -> reachable numberToString st.
Proof.
  induction 1; [apply reachable_mounted | apply reachable_step; assumption].
Qed.

(** X13.  In every state the rendered form can reach, [formData.country]
    is [selectedCountry] and is the value of one of the select's options;
    so the submission data, when there is one, is [formData] itself. *)
Theorem rendered_country_in_sync (st : State) :
  rendered numberToString st ->
  country (formData st) = selectedCountry st /\
  In (selectedCountry st) selectValues /\
  (forall submissionData,
      snd (handleSubmit st) = Some submissionData ->
      submissionData = formData st).
Proof.
  intros Hr.
  assert (Hsync : country (formData st) = selectedCountry st /\
                  In (selectedCountry st) selectValues).
  { induction Hr as [|ev st Hr IH Hs Hw].
    - split; [reflexivity | left; reflexivity].
    - destruct ev as [k v| v | |]; cbn in Hw |- *.
      + destruct k; try contradiction; exact IH.
      + split; [reflexivity | exact Hw].
      + exact IH.
      + unfold handleSubmit. destruct (isFormValid st); exact IH. }
  destruct Hsync as [Hc Hin]. repeat split; auto.
  intros d. unfold handleSubmit.
  destruct (isFormValid st); cbn; [|discriminate].
  intros [= <-]. rewrite <- Hc. apply (setField_getField Key.country).
Qed.

(** X14.  Selecting any entry of [countryOptions] stores its value in both
    country slots and clears the country error; selecting the placeholder
    records the country message and leaves the form not valid.  The
    values of the select's options are pairwise different. *)
Theorem listed_countries_pass :
  (forall o st,
      In o countryOptions ->
      let st' := step numberToString (CountryChange (value o)) st in
      selectedCountry st' = value o /\
      country (formData st') = value o /\
      errors st' !! Key.name Key.country = Some Msg.none) /\
  (forall st,
      let st' := step numberToString (CountryChange []) st in
      errors st' !! Key.name Key.country = Some Msg.countryRequired /\
      isFormValid st' = false) /\
  NoDup selectValues.
Proof.
  split; [|split].
  - intros o st Ho st'. repeat split.
    unfold st'. cbn. rewrite lookup_insert_eq. f_equal.
    apply country_accepts.
    cbn in Ho. decompose [or] Ho; subst; try discriminate; contradiction.
  - intros st st'. split; [apply lookup_insert_eq|].
    unfold st'. cbn [step validityEffect isFormValid].
    destruct (computeValid _ _) eqn:Hv; [|reflexivity].
    apply computeValid_spec in Hv as [_ Hv]. message_clash Hv.
  - apply (bool_decide_unpack _). vm_compute. exact I.
Qed.

End ReachableInvariants.

(** X8 on the phone of the filled form. *)
Lemma errors_never_stale_witness :
  Msg.none = validate Key.phone (getField Key.phone (formData filledState)).
Proof.
  apply (proj2 (errors_never_stale integerToString filledState
                  filledState_reachable) Key.phone Msg.none).
  vm_compute. reflexivity.
Defined.

(** X10 on the filled form. *)
Lemma valid_exactly_when_acceptable_witness :
  acceptable (formData filledState) (selectedCountry filledState).
Proof.
  apply (proj1 (valid_exactly_when_acceptable integerToString filledState
                  filledState_reachable)).
  vm_compute. reflexivity.
Defined.

(** X12 on the filled form once submitted. *)
Lemma submitted_only_when_acceptable_witness :
  acceptable (formData (step integerToString Submit filledState))
    (selectedCountry (step integerToString Submit filledState)).
Proof.
  apply (submitted_only_when_acceptable integerToString).
  - apply reachable_step; [apply filledState_reachable|].
    vm_compute. reflexivity.
  - vm_compute. reflexivity.
Defined.

Lemma filledState_rendered : rendered integerToString filledState.
Proof.
  cbv [filledState run sessionEvents fold_left].
  repeat (apply rendered_step;
          [|vm_compute; reflexivity | cbn; try exact I; tauto]).
  apply rendered_mounted.
Qed.

(** X13 on the filled form. *)
Lemma rendered_country_in_sync_witness :
  country (formData filledState) = selectedCountry filledState.
Proof.
  apply (rendered_country_in_sync integerToString filledState
           filledState_rendered).
Defined.

(** ** The age rule on what parseInt reads *)

Lemma fold_digits_nonneg (ds : jsstring) :
  forallb isDigit ds = true ->
  forall acc, 0 <= acc ->
              0 <= fold_left (fun a c => a * 10 + (Z.of_N c - 48)) ds acc.
Proof.
  induction ds as [|c ds IH]; simpl; intros Hds acc Hacc; [exact Hacc|].
  apply andb_true_iff in Hds as [Hc Hds]. apply isDigit_range in Hc.
  apply IH; [exact Hds | lia].
Qed.

Lemma digitsValue_nonneg (ds : jsstring) :
  forallb isDigit ds = true -> 0 <= digitsValue ds.
Proof. intros H. apply fold_digits_nonneg; [exact H | lia]. Qed.

Lemma age_of_parseInt (v : jsstring) :
  v <> [] ->
  validateField.age v =
  match parseInt v with
  | Some n => if (18 <=? n) && (n <=? 65) then Msg.none else Msg.ageRange
  | None => Msg.ageRange
  end.
Proof.
  intros Hne. unfold validateField.age. apply isEmpty_false in Hne.
  rewrite Hne. destruct (parseInt v) as [n|]; [|reflexivity].
  destruct (Z.ltb_spec n 18), (Z.gtb_spec n 65), (Z.leb_spec 18 n),
    (Z.leb_spec n 65); try reflexivity; lia.
Qed.

Lemma parseInt_whiteSpace (v : jsstring) :
  forallb isWhiteSpace v = true -> parseInt v = None.
Proof.
  intros H. unfold parseInt.
  rewrite <- (List.app_nil_r v), (trimStart_app v [] H I). reflexivity.
Qed.

Lemma leadingNumeral_nonempty (v sgn ds : jsstring) :
  leadingNumeral v sgn ds -> v <> [].
Proof.
  intros (ws & rest & -> & _ & _ & Hne & _) H.
  apply List.app_eq_nil in H as [_ H]. apply List.app_eq_nil in H as [_ H].
  apply List.app_eq_nil in H as [H _]. contradiction.
Qed.

(** X15.  The age rule looks at the leading decimal numeral only.  Let
    the value be white space, an optional sign and decimal digits,
    followed by a rest that starts with no digit and, when the digits are
    the single digit 0, with neither x nor X (so that no 0x prefix is
    read; that case is X16).  Then the value is accepted exactly when the
    signed number of those digits is in [18, 65], whatever the rest is,
    and gets the range message if not.  Such a value with a minus sign,
    and a value of white space only, get the range message. *)
Theorem age_decided_by_leading_numeral :
  (forall v sgn ds,
      leadingNumeral v sgn ds ->
      (validateField.age v = Msg.none <->
       18 <= signValue sgn * digitsValue ds <= 65) /\
      (~ 18 <= signValue sgn * digitsValue ds <= 65 ->
       validateField.age v = Msg.ageRange)) /\
  (forall v ds,
      leadingNumeral v [ch "-"] ds -> validateField.age v = Msg.ageRange) /\
  (forall v,
      v <> [] -> forallb isWhiteSpace v = true ->
      validateField.age v = Msg.ageRange).
Proof.
  assert (Hlead : forall v sgn ds,
             leadingNumeral v sgn ds ->
             validateField.age v =
             if (18 <=? signValue sgn * digitsValue ds)
                && (signValue sgn * digitsValue ds <=? 65)
             then Msg.none else Msg.ageRange).
  { intros v sgn ds H.
    rewrite (age_of_parseInt v (leadingNumeral_nonempty v sgn ds H)).
    rewrite (parseInt_leadingNumeral v sgn ds H). reflexivity. }
  split; [|split].
  - intros v sgn ds H. rewrite (Hlead v sgn ds H).
    destruct (Z.leb_spec 18 (signValue sgn * digitsValue ds)),
      (Z.leb_spec (signValue sgn * digitsValue ds) 65); cbn [andb].
    + split; [split; [intros _; lia | reflexivity] | intros H'; lia].
    + split; [split; [intros H'; message_clash H' | lia] | reflexivity].
    + split; [split; [intros H'; message_clash H' | lia] | reflexivity].
    + split; [split; [intros H'; message_clash H' | lia] | reflexivity].
  - intros v ds H. rewrite (Hlead v _ ds H).
    destruct H as (_ & _ & _ & _ & _ & _ & Hds & _).
    apply digitsValue_nonneg in Hds. change (signValue [ch "-"]) with (-1).
    destruct (Z.leb_spec 18 (-1 * digitsValue ds)); [lia | reflexivity].
  - intros v Hne Hws. rewrite (age_of_parseInt v Hne).
    rewrite (parseInt_whiteSpace v Hws). reflexivity.
Qed.

(** X15 on 20.5: the leading 20 decides. *)
Lemma age_decided_by_leading_numeral_witness :
  validateField.age (lit "20.5") = Msg.none.
Proof.
  apply (proj1 age_decided_by_leading_numeral (lit "20.5") [] (lit "20")).
  - exists [], (lit ".5"). repeat split; auto; discriminate.
  - vm_compute. split; discriminate.
Defined.

(** ** The age rule on hexadecimal input *)

Lemma radixDigit_hex (c : N) :
  isHexDigit c = true -> radixDigit 16 c = Some (hexDigitValue c).
Proof.
  unfold isHexDigit, radixDigit, digitValue, hexDigitValue, inRange.
  intros H.
  destruct (N.leb_spec 48 c), (N.leb_spec c 57), (N.leb_spec 97 c),
    (N.leb_spec c 102), (N.leb_spec c 122), (N.leb_spec 65 c),
    (N.leb_spec c 70), (N.leb_spec c 90); cbn in H |- *;
    try discriminate H; try lia;
    match goal with
    | |- context [?a <? 16] => destruct (Z.ltb_spec a 16)
    end; try lia; f_equal; lia.
Qed.

Lemma radixDigit_not_hex (c : N) :
  isHexDigit c = false -> radixDigit 16 c = None.
Proof.
  unfold isHexDigit, radixDigit, digitValue, inRange.
  intros H.
  destruct (N.leb_spec 48 c), (N.leb_spec c 57), (N.leb_spec 97 c),
    (N.leb_spec c 102), (N.leb_spec c 122), (N.leb_spec 65 c),
    (N.leb_spec c 70), (N.leb_spec c 90); cbn in H |- *;
    try discriminate H; try lia; try reflexivity;
    match goal with
    | |- context [?a <? 16] => destruct (Z.ltb_spec a 16)
    end; try lia; reflexivity.
Qed.

Lemma parseDigits_hex_prefix (hs rest : jsstring) :
  forallb isHexDigit hs = true -> stopsBefore isHexDigit rest ->
  forall acc : Z,
    parseDigits 16 (Some acc) (hs ++ rest) =
    Some (fold_left (fun a c => a * 16 + hexDigitValue c) hs acc).
Proof.
  intros Hhs Hrest. induction hs as [|c hs IH]; simpl; intros acc.
  - destruct rest as [|c rest]; [reflexivity|]. simpl in *.
    rewrite (radixDigit_not_hex c Hrest). reflexivity.
  - simpl in Hhs. apply andb_true_iff in Hhs as [Hc Hhs].
    rewrite (radixDigit_hex c Hc). simpl. apply IH, Hhs.
Qed.

(** The exact integer of [parseInt] after a [0x] or [0X] prefix: the
    digits are read in base 16. *)
Lemma parseInt_leadingHexNumeral (v sgn hs : jsstring) :
  leadingHexNumeral v sgn hs ->
  parseInt v = Some (signValue sgn * hexValue hs).
Proof.
  intros (ws & x & rest & -> & Hws & Hsgn & Hx & Hne & Hhs & Hrest).
  unfold parseInt. rewrite trimStart_app; [|exact Hws|].
  - cbv zeta.
    change (sgn ++ [ch "0"; x] ++ hs ++ rest)
      with (sgn ++ [ch "0"] ++ (x :: hs ++ rest)).
    rewrite (readSign_prefix sgn [ch "0"] (x :: hs ++ rest) Hsgn)
      by (discriminate || reflexivity).
    assert (Hradix : readRadix ([ch "0"] ++ x :: hs ++ rest)
                     = (16, hs ++ rest))
      by (destruct Hx as [-> | ->]; reflexivity).
    rewrite Hradix.
    destruct hs as [|c hs]; [congruence|]. simpl in Hhs.
    apply andb_true_iff in Hhs as [Hc Hhs].
    cbn [app parseDigits]. rewrite (radixDigit_hex c Hc).
    cbn [default]. rewrite (parseDigits_hex_prefix hs rest Hhs Hrest).
    reflexivity.
  - destruct Hsgn as [-> | [-> | ->]]; reflexivity.
Qed.

Lemma leadingHexNumeral_nonempty (v sgn hs : jsstring) :
  leadingHexNumeral v sgn hs -> v <> [].
Proof.
  intros (ws & x & rest & -> & _) H.
  apply List.app_eq_nil in H as [_ H]. apply List.app_eq_nil in H as [_ H].
  discriminate H.
Qed.

(** X16.  A value written in hexadecimal is judged as such: when it is
    white space, an optional sign, 0x or 0X, and hexadecimal digits
    followed by anything that starts with no hexadecimal digit, the age
    rule accepts it exactly when the signed number of those digits, read
    in base 16, is in [18, 65], and gives the range message if not. *)
Theorem age_reads_hexadecimal (v sgn hs : jsstring) :
  leadingHexNumeral v sgn hs ->
  (validateField.age v = Msg.none <->
   18 <= signValue sgn * hexValue hs <= 65) /\
  (~ 18 <= signValue sgn * hexValue hs <= 65 ->
   validateField.age v = Msg.ageRange).
Proof.
  intros H. pose proof (parseInt_leadingHexNumeral v sgn hs H) as Hp.
  split.
  - rewrite age_accepts, Hp. split.
    + intros (n & [= <-] & Hn). exact Hn.
    + intros Hn. eexists. split; [reflexivity | exact Hn].
  - intros Hn.
    rewrite (age_of_parseInt v (leadingHexNumeral_nonempty v sgn hs H)), Hp.
    destruct (Z.leb_spec 18 (signValue sgn * hexValue hs)),
      (Z.leb_spec (signValue sgn * hexValue hs) 65); cbn [andb];
      try reflexivity.
    exfalso. apply Hn. lia.
Qed.

(** X16 on 0x20, thirty-two in base 16. *)
Lemma age_reads_hexadecimal_witness :
  validateField.age (lit "0x20") = Msg.none.
Proof.
  assert (H : leadingHexNumeral (lit "0x20") [] (lit "20")).
  { exists [], (ch "x"), []. repeat split; auto; discriminate. }
  apply (proj1 (age_reads_hexadecimal (lit "0x20") [] (lit "20") H)).
  vm_compute. split; discriminate.
Defined.

(** ** What an accepted email looks like *)

Lemma isEmailChar_spec (c : N) :
  isEmailChar c = true <-> isWhiteSpace c = false /\ c <> ch "@".
Proof.
  unfold isEmailChar.
  rewrite negb_true_iff, orb_false_iff, N.eqb_neq. reflexivity.
Qed.

Lemma emailPart_no_at (s : jsstring) :
  forallb isEmailChar s = true -> count_occ N.eq_dec s (ch "@") = 0%nat.
Proof.
  intros H. apply count_occ_not_In. intros Hin.
  rewrite forallb_forall in H. apply H, isEmailChar_spec in Hin.
  destruct Hin as [_ Hne]. congruence.
Qed.

Lemma emailPart_no_whiteSpace (s : jsstring) :
  forallb isEmailChar s = true ->
  forallb (fun c => negb (isWhiteSpace c)) s = true.
Proof.
  rewrite !forallb_forall. intros H c Hin.
  apply H, isEmailChar_spec in Hin as [-> _]. reflexivity.
Qed.

(** X17.  An email the validator accepts has exactly one [@], with
    something before it, holds no white space, and has a dot somewhere
    after the [@]. *)
Theorem accepted_email_shape (v : jsstring) :
  validateField.email v = Msg.none ->
  count_occ N.eq_dec v (ch "@") = 1%nat /\
  forallb (fun c => negb (isWhiteSpace c)) v = true /\
  exists l d, v = l ++ [ch "@"] ++ d /\ l <> [] /\ In (ch ".") d.
Proof.
  intros H. apply email_accepts in H as [(l & d & t & Hl & Hd & Ht & ->) _].
  destruct Hl as [Hlne Hl], Hd as [_ Hd], Ht as [_ Ht].
  split; [|split].
  - rewrite !count_occ_app, (emailPart_no_at l Hl), (emailPart_no_at d Hd),
      (emailPart_no_at t Ht). reflexivity.
  - rewrite !forallb_app, (emailPart_no_whiteSpace l Hl),
      (emailPart_no_whiteSpace d Hd), (emailPart_no_whiteSpace t Ht).
    reflexivity.
  - exists l, (d ++ [ch "."] ++ t). repeat split; auto.
    apply List.in_or_app. right. left. reflexivity.
Qed.

(** X17 on john@test.com. *)
Lemma accepted_email_shape_witness :
  count_occ N.eq_dec (lit "john@test.com") (ch "@") = 1%nat.
Proof.
  apply (accepted_email_shape (lit "john@test.com")).
  vm_compute. reflexivity.
Defined.

(** X11 on the session without its first event: the full name is still
    blank and the submit does nothing. *)
Lemma blank_field_blocks_submit_witness :
  handleSubmit (run (List.tl sessionEvents) mounted)
  = (run (List.tl sessionEvents) mounted, None).
Proof.
  apply (proj2 (blank_field_blocks_submit integerToString)).
  - cbv [run sessionEvents List.tl fold_left].
    repeat (apply reachable_step; [|vm_compute; reflexivity]).
    apply reachable_mounted.
  - left. exists Key.fullName. vm_compute. reflexivity.
Defined.

(** X14 on the second option. *)
Lemma listed_countries_pass_witness :
  errors (step integerToString (CountryChange (lit "uk")) mounted)
    !! Key.name Key.country = Some Msg.none.
Proof.
  apply (proj1 (listed_countries_pass integerToString)
           (mkCountryOption (lit "United Kingdom") (lit "uk")) mounted).
  cbn. tauto.
Defined.
